(** * Qudo Beauty scraper (main.py): a shallow embedding and its properties

    The scraper drives a browser through Selenium.  The browser is modelled
    as a [World]: a fixed description of how the site answers every call the
    code makes.  The code itself is embedded in a state-and-exception monad
    over the scraper object ([self.products], [self.driver]). *)

From stdpp Require Import base gmap strings list.
From Stdlib Require Import ZArith Ascii String Lia.

Open Scope string_scope.
Open Scope Z_scope.

(** ** Python strings

    A [string] is a sequence of code points; the model covers the code
    points below 256. *)
Module PyStr.

(** [c.isspace()] on code points below 256. *)
Definition isspace (c : ascii) : bool :=
  let n := nat_of_ascii c in
  ((9 <=? n)%nat && (n <=? 13)%nat) || ((28 <=? n)%nat && (n <=? 32)%nat)
  || (n =? 133)%nat || (n =? 160)%nat.

(** [c.lower()] on code points below 256. *)
Definition lower_char (c : ascii) : ascii :=
  let n := nat_of_ascii c in
  if ((65 <=? n)%nat && (n <=? 90)%nat)
     || ((192 <=? n)%nat && (n <=? 222)%nat && negb (n =? 215)%nat)
  then ascii_of_nat (n + 32) else c.

(** [s.lower()] *)
Fixpoint lower (s : string) : string :=
  match s with
  | EmptyString => EmptyString
  | String c s' => String (lower_char c) (lower s')
  end.

Fixpoint lstrip (s : string) : string :=
  match s with
  | EmptyString => EmptyString
  | String c s' => if isspace c then lstrip s' else s
  end.

Fixpoint rstrip (s : string) : string :=
  match s with
  | EmptyString => EmptyString
  | String c s' =>
      match rstrip s' with
      | EmptyString => if isspace c then EmptyString else String c EmptyString
      | r => String c r
      end
  end.

(** [s.strip()] *)
Definition strip (s : string) : string := rstrip (lstrip s).

(** [s.startswith(p)] *)
Definition startswith (s p : string) : bool := String.prefix p s.

(** [sub in s] *)
Fixpoint contains (sub s : string) : bool :=
  String.prefix sub s ||
  match s with
  | EmptyString => false
  | String _ s' => contains sub s'
  end.

(** Truth value of a [str]: the empty string is falsy. *)
Definition nonempty (s : string) : bool :=
  match s with EmptyString => false | String _ _ => true end.

(** Truth value of a value that is a [str] or [None]. *)
Definition truthy (v : option string) : bool :=
  match v with None => false | Some s => nonempty s end.

End PyStr.

(** ** Data model *)

(** What [get_attribute('href')] gives: a string, or [None] when the
    attribute is missing.  Links, and hence page URLs, have this type. *)
Definition href : Type := option string.

(** [selenium.common.exceptions], and every other [Exception]. *)
Inductive exn : Type :=
| TimeoutException
| NoSuchElementException
| WebDriverException.

Global Instance exn_eq_dec : EqDecision exn.
Proof. solve_decision. Defined.

(** Outcome of a call: a value, or a raised exception. *)
Inductive result (A : Type) : Type :=
| Ok (a : A)
| Raise (e : exn).
Arguments Ok {A} a.
Arguments Raise {A} e.

(** [selenium.webdriver.common.by.By], the strategies the code uses. *)
Inductive By : Type := CSS_SELECTOR | XPATH | TAG_NAME.

Global Instance By_eq_dec : EqDecision By.
Proof. solve_decision. Defined.

Definition locator : Type := By * string.

(** An element of a detail page: its [text] and its [get_attribute]. *)
Record WebElement : Type := {
  text : string;
  get_attribute : string -> option string
}.

(** Where the browser is. *)
Inductive place : Type :=
| Blank
| Page (url : href)
| Clicked (from : place) (xpath : string).

(** The [product_data] dictionary, under the keys of the source. *)
Module product_data.
Record t : Type := {
  product_name : option string;
  brand : string;
  category : option string;
  ingredients : option string;
  size : option string;
  image_url : option string;
  product_url : href
}.
End product_data.
Abbreviation ProductRecord := product_data.t.

(** The site: how it answers each call of the driver.  An answer depends
    on the place of the browser and on the arguments of the call only.
    - [page_get url]: [driver.get(url)];
    - [ready_state p]: [WebDriverWait(driver, t).until(readyState == 'complete')];
    - [clickable p x]: [WebDriverWait(driver, 5).until(element_to_be_clickable((By.XPATH, x)))],
      giving the outcome of the [click()] of the element found;
    - [scroll_to_bottom p k]: the k-th [window.scrollTo] script;
    - [scroll_height p k]: [document.body.scrollHeight] after k scrolls;
    - [find_elements p x]: [driver.find_elements(By.XPATH, x)], each element
      given by the outcome of its [get_attribute('href')];
    - [find_element p by_ v]: [driver.find_element(by, v)]. *)
Record World : Type := {
  page_get : href -> result unit;
  ready_state : place -> result unit;
  clickable : place -> string -> result (result unit);
  scroll_to_bottom : place -> nat -> result unit;
  scroll_height : place -> nat -> result Z;
  find_elements : place -> string -> result (list (result href));
  find_element : place -> By -> string -> result WebElement
}.

(** Calls that act on the browser or block on it, as the driver receives
    them.  Reads of the DOM leave the driver as it is. *)
Inductive command : Type :=
| CGet (url : href)
| CWaitReady (timeout : Z)
| CWaitClickable (xpath : string) (timeout : Z)
| CClick (xpath : string)
| CScript (script : string)
| CQuit.

Global Instance command_eq_dec : EqDecision command.
Proof. solve_decision. Defined.

(** [self.driver] *)
Record Driver : Type := {
  current : place;
  log : list command
}.

(** The scraper object. *)
Record QudobeautyScraper : Type := {
  products : list ProductRecord;
  driver : Driver
}.

Definition base_url : string := "https://qudobeauty.com".

(** ** The monad: state of the scraper, and exceptions *)

Definition M (A : Type) : Type :=
  QudobeautyScraper -> result A * QudobeautyScraper.

Definition ret {A} (a : A) : M A := fun s => (Ok a, s).

Definition bind {A B} (m : M A) (f : A -> M B) : M B :=
  fun s =>
    match m s with
    | (Ok a, s') => f a s'
    | (Raise e, s') => (Raise e, s')
    end.

(** [try: m  except <those e with h e = Some _>: handler] *)
Definition try_except {A} (m : M A) (h : exn -> option (M A)) : M A :=
  fun s =>
    match m s with
    | (Ok a, s') => (Ok a, s')
    | (Raise e, s') =>
        match h e with
        | Some m' => m' s'
        | None => (Raise e, s')
        end
    end.

(** [try: m  finally: f] *)
Definition try_finally {A} (m : M A) (f : M unit) : M A :=
  fun s =>
    match m s with
    | (r, s') =>
        match f s' with
        | (Ok _, s'') => (r, s'')
        | (Raise e, s'') => (Raise e, s'')
        end
    end.

Notation "'let*' x ':=' m 'in' k" := (bind m (fun x => k))
  (at level 10, x name, m at level 100, k at level 200, only parsing).

(** [except TimeoutException:] *)
Definition on_timeout {A} (m' : M A) (e : exn) : option (M A) :=
  match e with TimeoutException => Some m' | _ => None end.

(** [except NoSuchElementException:] *)
Definition on_no_such_element {A} (m' : M A) (e : exn) : option (M A) :=
  match e with NoSuchElementException => Some m' | _ => None end.

(** [except Exception:] *)
Definition on_exception {A} (m' : M A) (e : exn) : option (M A) := Some m'.

(** Lift the outcome of a call. *)
Definition lift {A} (r : result A) : M A := fun s => (r, s).

(** ** The program *)
Section Scraper.

Variable w : World.

(** *** The driver *)

Definition send (c : command) : M unit :=
  fun s =>
    (Ok tt,
     {| products := products s;
        driver := {| current := current (driver s);
                     log := log (driver s) ++ [c] |} |}).

Definition goto (p : place) : M unit :=
  fun s =>
    (Ok tt,
     {| products := products s;
        driver := {| current := p; log := log (driver s) |} |}).

Definition here : M place := fun s => (Ok (current (driver s)), s).

(** [self.driver.get(url)]; a failed load leaves the browser where it was. *)
Definition driver_get (url : href) : M unit :=
  let* _ := send (CGet url) in
  let* _ := lift (page_get w url) in
  goto (Page url).

(** [WebDriverWait(self.driver, timeout).until(lambda d: ... == 'complete')] *)
Definition wait_ready (timeout : Z) : M unit :=
  let* _ := send (CWaitReady timeout) in
  let* p := here in
  lift (ready_state w p).

(** [WebDriverWait(self.driver, timeout).until(EC.element_to_be_clickable((By.XPATH, selector)))];
    the element is given by the outcome of its [click()]. *)
Definition wait_clickable (selector : string) (timeout : Z) : M (result unit) :=
  let* _ := send (CWaitClickable selector timeout) in
  let* p := here in
  lift (clickable w p selector).

(** [skincare_link.click()] *)
Definition click (selector : string) (skincare_link : result unit) : M unit :=
  let* _ := send (CClick selector) in
  let* _ := lift skincare_link in
  let* p := here in
  goto (Clicked p selector).

(** [self.driver.execute_script("window.scrollTo(0, document.body.scrollHeight);")] *)
Definition script_scroll (k : nat) : M unit :=
  let* _ := send (CScript "window.scrollTo(0, document.body.scrollHeight);") in
  let* p := here in
  lift (scroll_to_bottom w p k).

(** [self.driver.execute_script("return document.body.scrollHeight")] *)
Definition script_height (k : nat) : M Z :=
  let* _ := send (CScript "return document.body.scrollHeight") in
  let* p := here in
  lift (scroll_height w p k).

(** [self.driver.quit()] *)
Definition driver_quit : M unit := send CQuit.

(** *** [_wait_for_page_load], [_safe_find_element], [_safe_get_attribute] *)

Definition _wait_for_page_load (timeout : Z) : M unit :=
  try_except
    (let* _ := wait_ready timeout in
     ret tt (* time.sleep(2) *))
    (on_timeout (ret tt (* logger.warning *))).

(** Every call of the source leaves [parent] at its default, [None]. *)
Definition _safe_find_element (by_ : By) (value : string) : M (option string) :=
  try_except
    (let* p := here in
     let* element := lift (find_element w p by_ value) in
     ret (if PyStr.nonempty (text element)
          then Some (PyStr.strip (text element))
          else None))
    (on_no_such_element (ret None)).

Definition _safe_get_attribute (by_ : By) (value attribute : string)
  : M (option string) :=
  try_except
    (let* p := here in
     let* element := lift (find_element w p by_ value) in
     ret (get_attribute element attribute))
    (on_no_such_element (ret None)).

(** *** [navigate_to_skincare] *)

Definition skincare_selectors : list string :=
  [ "//a[contains(text(), 'Skincare')]";
    "//a[contains(text(), 'SKINCARE')]";
    "//a[contains(@href, 'skincare')]";
    "//nav//a[contains(text(), 'Skin')]" ].

(** [for selector in skincare_selectors: try: ... return True
    except TimeoutException: continue], then [return False]. *)
Fixpoint try_skincare_selectors (selectors : list string) : M bool :=
  match selectors with
  | [] => ret false
  | selector :: rest =>
      try_except
        (let* skincare_link := wait_clickable selector 5 in
         let* _ := click selector skincare_link in
         let* _ := _wait_for_page_load 15 in
         ret true)
        (on_timeout (try_skincare_selectors rest))
  end.

Definition navigate_to_skincare : M bool :=
  let* _ := driver_get (Some base_url) in
  let* _ := _wait_for_page_load 15 in
  try_except
    (try_skincare_selectors skincare_selectors)
    (on_exception (ret false)).

(** *** [extract_product_links] *)

Definition max_scrolls : nat := 5.

(** [while scroll_attempts < max_scrolls: ...]; [remaining] is
    [max_scrolls - scroll_attempts]. *)
Fixpoint scroll_loop (remaining : nat) (last_height : Z) (scroll_attempts : nat)
  : M unit :=
  match remaining with
  | O => ret tt
  | S remaining' =>
      let* _ := script_scroll scroll_attempts in
      (* time.sleep(2) *)
      let* new_height := script_height (S scroll_attempts) in
      if new_height =? last_height then ret tt
      else scroll_loop remaining' new_height (S scroll_attempts)
  end.

Definition link_selectors : list string :=
  [ "//a[contains(@href, '/products/')]";
    "//a[@class and contains(@class, 'product')]";
    "//div[contains(@class, 'product')]//a";
    "//article//a" ].

(** [href and '/products/' in href and 'skincare' in href.lower()
     or len(product_links) < max_products] *)
Definition keep (h : href) (product_links : gset href) (max_products : Z) : bool :=
  match h with
  | Some u =>
      PyStr.nonempty u && PyStr.contains "/products/" u
      && PyStr.contains "skincare" (PyStr.lower u)
  | None => false
  end
  || (Z.of_nat (size product_links) <? max_products).

(** One pass of the body of [for elem in elements], after the href is
    read: the set, and whether the loop breaks. *)
Definition visit (max_products : Z) (product_links : gset href) (h : href)
  : gset href * bool :=
  if keep h product_links max_products then
    let product_links' := {[ h ]} ∪ product_links in
    (product_links', Z.of_nat (size product_links') >=? max_products)
  else (product_links, false).

(** [for elem in elements: href = elem.get_attribute('href'); ...]:
    the set when the loop is left, and [Raise] when it is left by an
    exception of [get_attribute]. *)
Fixpoint scan_elements (max_products : Z) (product_links : gset href)
    (elems : list (result href)) : gset href * result unit :=
  match elems with
  | [] => (product_links, Ok tt)
  | Raise e :: _ => (product_links, Raise e)
  | Ok h :: rest =>
      match visit max_products product_links h with
      | (product_links', true) => (product_links', Ok tt)
      | (product_links', false) => scan_elements max_products product_links' rest
      end
  end.

(** [for selector in link_selectors: try: ... except Exception: continue;
    if len(product_links) >= max_products: break] *)
Fixpoint scan_selectors (p : place) (max_products : Z)
    (product_links : gset href) (selectors : list string) : gset href :=
  match selectors with
  | [] => product_links
  | selector :: rest =>
      match find_elements w p selector with
      | Raise _ => scan_selectors p max_products product_links rest
      | Ok elems =>
          match scan_elements max_products product_links elems with
          | (product_links', Raise _) =>
              scan_selectors p max_products product_links' rest
          | (product_links', Ok _) =>
              if Z.of_nat (size product_links') >=? max_products
              then product_links'
              else scan_selectors p max_products product_links' rest
          end
      end
  end.

(** [l[:n]] *)
Definition slice_to {A} (l : list A) (n : Z) : list A :=
  if 0 <=? n then take (Z.to_nat n) l
  else take (Z.to_nat (Z.of_nat (List.length l) + n)) l.

Definition extract_product_links (max_products : Z) : M (list href) :=
  let* last_height := script_height 0 in
  let* _ := scroll_loop max_scrolls last_height 0 in
  let* p := here in
  let product_links := scan_selectors p max_products ∅ link_selectors in
  ret (slice_to (elements product_links) max_products).

(** *** [scrape_product_page] *)

Definition name_selectors : list locator :=
  [ (CSS_SELECTOR, "h1.product-title");
    (CSS_SELECTOR, "h1.product__title");
    (XPATH, "//h1[contains(@class, 'product')]");
    (TAG_NAME, "h1") ].

Definition category_selectors : list locator :=
  [ (CSS_SELECTOR, ".product-type");
    (CSS_SELECTOR, ".breadcrumb a:last-child");
    (XPATH, "//span[contains(@class, 'category')]");
    (XPATH, "//a[contains(@href, 'collections')]") ].

Definition ingredient_selectors : list locator :=
  [ (XPATH, "//*[contains(text(), 'Ingredients')]/following-sibling::*");
    (XPATH, "//*[contains(text(), 'INGREDIENTS')]/following-sibling::*");
    (CSS_SELECTOR, ".ingredients");
    (CSS_SELECTOR, "[class*='ingredient']") ].

Definition size_selectors : list locator :=
  [ (CSS_SELECTOR, ".product-size");
    (CSS_SELECTOR, ".variant-option");
    (XPATH, "//*[contains(text(), 'Size')]/following-sibling::*");
    (CSS_SELECTOR, "select option[selected]") ].

Definition image_selectors : list locator :=
  [ (CSS_SELECTOR, ".product-image img");
    (CSS_SELECTOR, ".product__media img");
    (XPATH, "//img[contains(@class, 'product')]");
    (CSS_SELECTOR, "img[src*='product']") ].

(** [for by, selector in selectors:
      product_data[field] = self._safe_find_element(by, selector)
      if product_data[field]: break];
    [field] is what [product_data[field]] holds so far. *)
Fixpoint probe_text (field : option string) (selectors : list locator)
  : M (option string) :=
  match selectors with
  | [] => ret field
  | (by_, selector) :: rest =>
      let* field' := _safe_find_element by_ selector in
      if PyStr.truthy field' then ret field'
      else probe_text field' rest
  end.

(** The [# Ensure full URL] block. *)
Definition ensure_full_url (image_url : string) : string :=
  if PyStr.startswith image_url "//" then "https:" ++ image_url
  else if PyStr.startswith image_url "/" then base_url ++ image_url
  else image_url.

(** The loop over [image_selectors]. *)
Fixpoint probe_image (field : option string) (selectors : list locator)
  : M (option string) :=
  match selectors with
  | [] => ret field
  | (by_, selector) :: rest =>
      let* field' := _safe_get_attribute by_ selector "src" in
      match field' with
      | Some u =>
          if PyStr.nonempty u then ret (Some (ensure_full_url u))
          else probe_image field' rest
      | None => probe_image field' rest
      end
  end.

(** The [try] block of [scrape_product_page]. *)
Definition scrape_product_page_try (url : href) : M (option ProductRecord) :=
  let* _ := driver_get url in
  let* _ := _wait_for_page_load 15 in
  let* name := probe_text None name_selectors in
  let* category := probe_text None category_selectors in
  let* ingredients := probe_text None ingredient_selectors in
  let* size := probe_text None size_selectors in
  let* image := probe_image None image_selectors in
  let* name :=
    (if negb (PyStr.truthy name)
     then _safe_get_attribute CSS_SELECTOR "meta[property='og:title']" "content"
     else ret name) in
  let* image :=
    (if negb (PyStr.truthy image)
     then _safe_get_attribute CSS_SELECTOR "meta[property='og:image']" "content"
     else ret image) in
  ret (Some {| product_data.product_name := name;
               product_data.brand := "Qudo Beauty";
               product_data.category := category;
               product_data.ingredients := ingredients;
               product_data.size := size;
               product_data.image_url := image;
               product_data.product_url := url |}).

Definition scrape_product_page (url : href) : M (option ProductRecord) :=
  try_except
    (scrape_product_page_try url)
    (on_exception (ret None (* logger.error *))).

(** *** [scrape_products] *)

(** [self.products.append(product_data)] *)
Definition products_append (product_data : ProductRecord) : M unit :=
  fun s =>
    (Ok tt, {| products := products s ++ [product_data]; driver := driver s |}).

(** [for i, link in enumerate(product_links, 1): ...] *)
Fixpoint scrape_links (product_links : list href) : M unit :=
  match product_links with
  | [] => ret tt
  | link :: rest =>
      let* product_data := scrape_product_page link in
      let* _ :=
        match product_data with
        | Some pd =>
            if PyStr.truthy (product_data.product_name pd)
            then products_append pd
            else ret tt
        | None => ret tt
        end in
      (* time.sleep(1) *)
      scrape_links rest
  end.

(** The [try] block of [scrape_products], with its [except Exception]. *)
Definition scrape_products_guarded (max_products : Z) : M unit :=
  try_except
    (let* _ := navigate_to_skincare in
     let* product_links := extract_product_links max_products in
     let product_links :=
       match product_links with
       | [] => [Some (base_url ++ "/collections/skincare")]
       | _ => product_links
       end in
     let* _ := scrape_links product_links in
     ret tt (* logger.info *))
    (on_exception (ret tt (* logger.error *))).

Definition scrape_products (max_products : Z) : M unit :=
  try_finally (scrape_products_guarded max_products) driver_quit.

End Scraper.

(** [QudobeautyScraper.__init__]: no products yet, a fresh driver. *)
Definition init : QudobeautyScraper :=
  {| products := []; driver := {| current := Blank; log := [] |} |}.

(** ** The hrefs the Link Collector reads

    The loops of [extract_product_links] again, keeping for every href read
    the set [product_links] as it is when the href is read. *)
Section Reads.

Variable w : World.

Fixpoint reads_elements (max_products : Z) (product_links : gset href)
    (elems : list (result href)) : list (gset href * href) :=
  match elems with
  | [] => []
  | Raise _ :: _ => []
  | Ok h :: rest =>
      (product_links, h) ::
      match visit max_products product_links h with
      | (_, true) => []
      | (product_links', false) => reads_elements max_products product_links' rest
      end
  end.

Fixpoint reads_selectors (p : place) (max_products : Z)
    (product_links : gset href) (selectors : list string)
  : list (gset href * href) :=
  match selectors with
  | [] => []
  | selector :: rest =>
      match find_elements w p selector with
      | Raise _ => reads_selectors p max_products product_links rest
      | Ok elems =>
          reads_elements max_products product_links elems ++
          match scan_elements max_products product_links elems with
          | (product_links', Raise _) =>
              reads_selectors p max_products product_links' rest
          | (product_links', Ok _) =>
              if Z.of_nat (size product_links') >=? max_products
              then []
              else reads_selectors p max_products product_links' rest
          end
      end
  end.

(** Running the body of the loop over a list of reads. *)
Definition replay (max_products : Z) (product_links : gset href)
    (reads : list (gset href * href)) : gset href :=
  fold_left (fun links r => (visit max_products links r.2).1) reads product_links.

(** The set kept with each read is the one the body of the loop has made
    of [start] over the reads before it. *)
Fixpoint chained (max_products : Z) (start : gset href)
    (reads : list (gset href * href)) : Prop :=
  match reads with
  | [] => True
  | (links, h) :: rest =>
      links = start /\ chained max_products (visit max_products start h).1 rest
  end.

End Reads.

(** ** The statements of the specification *)

(** The href contains [/products/] and, whatever the case, [skincare]. *)
Definition category_matching (h : href) : Prop :=
  exists u, h = Some u
            /\ PyStr.contains "/products/" u = true
            /\ PyStr.contains "skincare" (PyStr.lower u) = true.

(** The result set is still below the maximum count. *)
Definition below_cap (product_links : gset href) (max_products : Z) : Prop :=
  Z.of_nat (size product_links) < max_products.

(** A detail page, as the locators see it. *)
Definition page : Type := By -> string -> result WebElement.

(** The text a candidate yields: its lookup succeeds and the text is not
    empty once trimmed. *)
Definition text_of (pg : page) (c : locator) : option string :=
  match pg c.1 c.2 with
  | Ok e => if PyStr.nonempty (PyStr.strip (text e))
            then Some (PyStr.strip (text e)) else None
  | Raise _ => None
  end.

(** The attribute a candidate yields: its lookup succeeds and the attribute
    is there and not empty. *)
Definition attribute_of (attribute : string) (pg : page) (c : locator)
  : option string :=
  match pg c.1 c.2 with
  | Ok e => match get_attribute e attribute with
            | Some u => if PyStr.nonempty u then Some u else None
            | None => None
            end
  | Raise _ => None
  end.

(** The attribute a candidate yields when emptiness is judged after
    trimming, as the specification words it. *)
Definition trimmed_attribute_of (attribute : string) (pg : page) (c : locator)
  : option string :=
  match pg c.1 c.2 with
  | Ok e => match get_attribute e attribute with
            | Some u => if PyStr.nonempty (PyStr.strip u) then Some u else None
            | None => None
            end
  | Raise _ => None
  end.

(** The value of the first candidate, in order, that yields one. *)
Fixpoint first_of (yield : locator -> option string) (candidates : list locator)
  : option string :=
  match candidates with
  | [] => None
  | c :: rest =>
      match yield c with
      | Some v => Some v
      | None => first_of yield rest
      end
  end.

(** What a metadata tag holds: the [content] of the [meta] element, when
    the element is there. *)
Definition meta_content (pg : page) (selector : string) : option string :=
  match pg CSS_SELECTOR selector with
  | Ok e => get_attribute e "content"
  | Raise _ => None
  end.

(** No text: absent, or the empty string. *)
Definition no_text (v : option string) : Prop := v = None \/ v = Some "".

(** The record was kept for a name: its [product_name] is a non-empty string. *)
Definition named (r : ProductRecord) : Prop :=
  exists n, product_data.product_name r = Some n /\ n <> "".

(** Scheme-relative or root-relative: the URL starts with a slash. *)
Definition relative_url (u : string) : Prop := PyStr.startswith u "/" = true.

(** The page wait comes back: the document is ready, or the wait timed out. *)
Definition settles (w : World) (p : place) : Prop :=
  ready_state w p = Ok tt \/ ready_state w p = Raise TimeoutException.

(** The home page loads. *)
Definition home_loads (w : World) : Prop :=
  page_get w (Some base_url) = Ok tt /\ settles w (Page (Some base_url)).

Definition Home : place := Page (Some base_url).

(** The candidate does not become clickable within the timeout. *)
Definition times_out (w : World) (p : place) (selector : string) : Prop :=
  clickable w p selector = Raise TimeoutException.

(** The candidate becomes clickable, its click goes through and the page
    wait comes back. *)
Definition clicks_through (w : World) (p : place) (selector : string) : Prop :=
  clickable w p selector = Ok (Ok tt) /\ settles w (Clicked p selector).

(** The commands of one wait for a clickable candidate. *)
Definition waits (selectors : list string) : list command :=
  map (fun x => CWaitClickable x 5) selectors.


(** How often the driver was released. *)
Definition quits (s : QudobeautyScraper) : nat :=
  List.length (filter (fun c => c = CQuit) (log (driver s))).

(** ** Relations between the states before and after a computation *)

(** [steps P m]: from every state, [m] ends in a state related to it by
    [P], whether it returns or raises. *)
Definition steps (P : QudobeautyScraper -> QudobeautyScraper -> Prop)
    {A} (m : M A) : Prop :=
  forall s, P s (m s).2.

(** The commands sent between two states hold no [quit]. *)
Definition no_quit (s s' : QudobeautyScraper) : Prop :=
  exists cmds, log (driver s') = (log (driver s) ++ cmds)%list /\ CQuit ∉ cmds.

(** The records appended between two states all have a name. *)
Definition grows_named (s s' : QudobeautyScraper) : Prop :=
  exists new, products s' = (products s ++ new)%list /\ Forall named new.

(** The products are as they were, and no [quit] was sent. *)
Definition calm (s s' : QudobeautyScraper) : Prop :=
  products s' = products s /\ no_quit s s'.

(** When an href is read, the set is below the cap or still empty. *)
Definition readable (max : Z) (links : gset href) : Prop :=
  below_cap links max \/ links = ∅.

(** Two states with the browser at the same place. *)
Definition agree (s1 s2 : QudobeautyScraper) : Prop :=
  current (driver s1) = current (driver s2).

(** The outcome of [m], and the place it leaves the browser at, depend on
    the state only through the place the browser is at. *)
Definition place_only {A} (m : M A) : Prop :=
  forall s1 s2, agree s1 s2 ->
    (m s1).1 = (m s2).1 /\ agree (m s1).2 (m s2).2.

(** The outcome of [m] does not depend on the state. *)
Definition oblivious {A} (m : M A) : Prop :=
  forall s1 s2, (m s1).1 = (m s2).1.

(** The state [s] once the commands [cmds] were sent and the browser is at [p]. *)
Definition after (s : QudobeautyScraper) (cmds : list command) (p : place)
  : QudobeautyScraper :=
  {| products := products s;
     driver := {| current := p; log := log (driver s) ++ cmds |} |}.

(** Every lookup on the page finds its element or misses it; none fails
    otherwise. *)
Definition benign (pg : page) : Prop :=
  forall b x e, pg b x = Raise e -> e = NoSuchElementException.

(** The detail page of [url] loads. *)
Definition page_loads (w : World) (url : href) : Prop :=
  page_get w url = Ok tt /\ settles w (Page url).

(** The five fields as the specification states them: each holds the value
    of the first candidate whose lookup succeeds and whose text or
    attribute is not empty once trimmed, and is absent when no candidate
    is such. *)
Definition claimed_fields (pg : page) (r : ProductRecord) : Prop :=
  product_data.product_name r = first_of (text_of pg) name_selectors
  /\ product_data.category r = first_of (text_of pg) category_selectors
  /\ product_data.ingredients r = first_of (text_of pg) ingredient_selectors
  /\ product_data.size r = first_of (text_of pg) size_selectors
  /\ product_data.image_url r
     = first_of (trimmed_attribute_of "src" pg) image_selectors.

(** The scroll scripts run: none raises at place [p]. *)
Definition scripts_run (w : World) (p : place) : Prop :=
  (forall k, scroll_to_bottom w p k = Ok tt)
  /\ (forall k, exists h, scroll_height w p k = Ok h).

(** ** Further statements about the code *)

(** The text has no whitespace at either end: trimming it changes nothing. *)
Definition trimmed (t : string) : Prop := PyStr.strip t = t.

(** A field that is absent, or holds trimmed text. *)
Definition absent_or_trimmed (v : option string) : Prop :=
  forall t, v = Some t -> trimmed t.

(** The state is as it was. *)
Definition untouched (s s' : QudobeautyScraper) : Prop := s' = s.

(** The URLs loaded by a list of commands, in order. *)
Definition gets (cmds : list command) : list href :=
  omap (fun c => match c with CGet url => Some url | _ => None end) cmds.

(** The two scripts of the scroll loop. *)
Definition scroll_script : command :=
  CScript "window.scrollTo(0, document.body.scrollHeight);".

Definition height_script : command :=
  CScript "return document.body.scrollHeight".

(** How many times a list of commands scrolls. *)
Definition scrolls (cmds : list command) : nat :=
  List.length (filter (fun c => c = scroll_script) cmds).

(** The page the run falls back to when no link is collected. *)
Definition fallback_url : href := Some (base_url ++ "/collections/skincare").

(** The Navigator passes over a candidate: the wait for it times out, or
    its click does.  [cmds] are the commands the attempt sends. *)
Definition passed_over (w : World) (p : place) (selector : string)
    (cmds : list command) : Prop :=
  (clickable w p selector = Raise TimeoutException
   /\ cmds = [CWaitClickable selector 5])
  \/ (clickable w p selector = Ok (Raise TimeoutException)
      /\ cmds = [CWaitClickable selector 5; CClick selector]).

(** The Navigator gives up at a candidate: the wait for it, or its click,
    raises something else than a timeout. *)
Definition gives_up (w : World) (p : place) (selector : string)
    (cmds : list command) : Prop :=
  (exists e, e <> TimeoutException
             /\ clickable w p selector = Raise e
             /\ cmds = [CWaitClickable selector 5])
  \/ (exists e, e <> TimeoutException
                /\ clickable w p selector = Ok (Raise e)
                /\ cmds = [CWaitClickable selector 5; CClick selector]).

(** The commands of a scroll loop of at most [n] turns: scripts only, at
    most [n] scrolls. *)
Definition scroll_commands (n : nat) (cmds : list command) : Prop :=
  Forall (fun c => c = scroll_script \/ c = height_script) cmds
  /\ (scrolls cmds <= n)%nat
  /\ (List.length cmds <= 2 * n)%nat.

(** The commands sent between two states load no page, and the products
    are as they were. *)
Definition loads_nothing (s s' : QudobeautyScraper) : Prop :=
  products s' = products s
  /\ exists cmds, log (driver s') = (log (driver s) ++ cmds)%list
                  /\ gets cmds = [].

(** What a run has added to the scraper: the records [new] and the
    commands [cmds], for the detail pages [links]. *)
Definition run_added (max_products : Z) (s s' : QudobeautyScraper)
    (links : list href) (new : list ProductRecord) (cmds : list command) : Prop :=
  products s' = (products s ++ new)%list
  /\ log (driver s') = (log (driver s) ++ cmds)%list
  /\ gets cmds = Some base_url :: links
  /\ map product_data.product_url new `sublist_of` links
  /\ Forall named new
  /\ NoDup links
  /\ Z.of_nat (List.length links) <= Z.max 1 max_products.

(** ** Sites used as test fixtures *)
Module Fixture.

(** An element with the given text and attributes. *)
Definition elem (t : string) (attrs : list (string * string)) : WebElement :=
  {| text := t;
     get_attribute := fun a =>
       snd <$> List.find (fun kv => String.eqb (fst kv) a) attrs |}.

(** A site on which nothing is found: pages load, no candidate becomes
    clickable, the page height never changes, no link and no element
    matches. *)
Definition bare : World :=
  {| page_get := fun _ => Ok tt;
     ready_state := fun _ => Ok tt;
     clickable := fun _ _ => Raise TimeoutException;
     scroll_to_bottom := fun _ _ => Ok tt;
     scroll_height := fun _ _ => Ok 2400;
     find_elements := fun _ _ => Ok [];
     find_element := fun _ _ _ => Raise NoSuchElementException |}.

(** [bare], with the given links on the listing page. *)
Definition listing (links : string -> result (list (result href))) : World :=
  {| page_get := page_get bare;
     ready_state := ready_state bare;
     clickable := clickable bare;
     scroll_to_bottom := scroll_to_bottom bare;
     scroll_height := scroll_height bare;
     find_elements := fun _ x => links x;
     find_element := find_element bare |}.

Definition serum : string := "https://qudobeauty.com/products/skincare-serum".
Definition toner : string := "https://qudobeauty.com/products/skincare-toner".
Definition about : string := "https://qudobeauty.com/pages/about".

(** Two candidates find the same links. *)
Definition twice : World :=
  listing (fun x =>
    if String.eqb x "//a[contains(@href, '/products/')]"
    then Ok [Ok (Some serum); Ok (Some toner); Ok (Some serum)]
    else if String.eqb x "//article//a"
    then Ok [Ok (Some toner); Ok (Some about); Ok (Some serum)]
    else Ok []).

(** One anchor has no href. *)
Definition anchor_without_href : World :=
  listing (fun x =>
    if String.eqb x "//article//a" then Ok [Ok None] else Ok []).

(** A detail page holding the given elements and nothing else. *)
Definition page_of (entries : list (locator * WebElement)) : page :=
  fun b x =>
    match List.find (fun kv => bool_decide (fst kv = (b, x))) entries with
    | Some kv => Ok (snd kv)
    | None => Raise NoSuchElementException
    end.

(** [bare], with the given listing and detail pages; a page that is not
    given does not load. *)
Definition shop (links : string -> result (list (result href)))
    (pages : list (string * page)) : World :=
  {| page_get := fun url =>
       match url with
       | Some u =>
           if String.eqb u base_url then Ok tt
           else match List.find (fun kv => String.eqb (fst kv) u) pages with
                | Some _ => Ok tt
                | None => Raise WebDriverException
                end
       | None => Raise WebDriverException
       end;
     ready_state := ready_state bare;
     clickable := clickable bare;
     scroll_to_bottom := scroll_to_bottom bare;
     scroll_height := scroll_height bare;
     find_elements := fun _ x => links x;
     find_element := fun p b x =>
       match p with
       | Page (Some u) =>
           match List.find (fun kv => String.eqb (fst kv) u) pages with
           | Some kv => snd kv b x
           | None => Raise NoSuchElementException
           end
       | _ => Raise NoSuchElementException
       end |}.

Definition mask : string := "https://qudobeauty.com/products/skincare-mask".

(** Every field is found by a candidate. *)
Definition serum_page : page :=
  page_of
    [ ((CSS_SELECTOR, "h1.product-title"), elem "  Rose Serum " []);
      ((TAG_NAME, "h1"), elem "Qudo Beauty" []);
      ((CSS_SELECTOR, ".breadcrumb a:last-child"), elem "Serums" []);
      ((CSS_SELECTOR, ".ingredients"), elem "Aqua, Rosa Damascena" []);
      ((CSS_SELECTOR, ".variant-option"), elem "30 ml" []);
      ((CSS_SELECTOR, ".product__media img"),
       elem "" [("src", "//cdn.qudobeauty.com/serum.png")]) ].

(** No candidate finds anything; the metadata tags are there. *)
Definition toner_page : page :=
  page_of
    [ ((CSS_SELECTOR, "meta[property='og:title']"),
       elem "" [("content", "Calming Toner")]);
      ((CSS_SELECTOR, "meta[property='og:image']"),
       elem "" [("content", "https://cdn.qudobeauty.com/toner.png")]) ].

(** Three products are listed; the page of the second does not load. *)
Definition three_pages : World :=
  shop
    (fun x =>
       if String.eqb x "//a[contains(@href, '/products/')]"
       then Ok [Ok (Some serum); Ok (Some mask); Ok (Some toner)]
       else Ok [])
    [ (serum, serum_page); (toner, toner_page) ].

(** The third candidate of the Navigator becomes clickable, the others do not. *)
Definition href_link : World :=
  {| page_get := page_get bare;
     ready_state := ready_state bare;
     clickable := fun _ x =>
       if String.eqb x "//a[contains(@href, 'skincare')]" then Ok (Ok tt)
       else Raise TimeoutException;
     scroll_to_bottom := scroll_to_bottom bare;
     scroll_height := scroll_height bare;
     find_elements := find_elements bare;
     find_element := find_element bare |}.

(** The first image candidate finds an image whose [src] is blank, the
    second one an image with a URL. *)
Definition blank_src_page : page :=
  page_of
    [ ((CSS_SELECTOR, "h1.product-title"), elem "Rose Serum" []);
      ((CSS_SELECTOR, ".product-type"), elem "Serums" []);
      ((CSS_SELECTOR, ".ingredients"), elem "Aqua, Rosa Damascena" []);
      ((CSS_SELECTOR, ".product-size"), elem "30 ml" []);
      ((CSS_SELECTOR, ".product-image img"), elem "" [("src", "   ")]);
      ((CSS_SELECTOR, ".product__media img"),
       elem "" [("src", "https://cdn.qudobeauty.com/serum.png")]) ].

Definition blank_src : World :=
  shop (fun _ => Ok []) [ (serum, blank_src_page) ].

Definition balm : string := "https://qudobeauty.com/products/skincare-balm".

(** No image candidate finds anything; the [og:image] tag holds a
    scheme-relative URL. *)
Definition balm_page : page :=
  page_of
    [ ((CSS_SELECTOR, "h1.product-title"), elem "Night Balm" []);
      ((CSS_SELECTOR, "meta[property='og:image']"),
       elem "" [("content", "//cdn.qudobeauty.com/balm.png")]) ].

Definition relative_og_image : World :=
  shop
    (fun x =>
       if String.eqb x "//a[contains(@href, '/products/')]"
       then Ok [Ok (Some balm)]
       else Ok [])
    [ (balm, balm_page) ].

(** The record of [serum_page]. *)
Definition serum_record : ProductRecord :=
  {| product_data.product_name := Some "Rose Serum";
     product_data.brand := "Qudo Beauty";
     product_data.category := Some "Serums";
     product_data.ingredients := Some "Aqua, Rosa Damascena";
     product_data.size := Some "30 ml";
     product_data.image_url := Some "https://cdn.qudobeauty.com/serum.png";
     product_data.product_url := Some serum |}.

(** The record of [toner_page]. *)
Definition toner_record : ProductRecord :=
  {| product_data.product_name := Some "Calming Toner";
     product_data.brand := "Qudo Beauty";
     product_data.category := None;
     product_data.ingredients := None;
     product_data.size := None;
     product_data.image_url := Some "https://cdn.qudobeauty.com/toner.png";
     product_data.product_url := Some toner |}.

(** The record [scrape_product_page] makes of [blank_src_page]. *)
Definition blank_src_record : ProductRecord :=
  {| product_data.product_name := Some "Rose Serum";
     product_data.brand := "Qudo Beauty";
     product_data.category := Some "Serums";
     product_data.ingredients := Some "Aqua, Rosa Damascena";
     product_data.size := Some "30 ml";
     product_data.image_url := Some "   ";
     product_data.product_url := Some serum |}.

(** The record [scrape_product_page] makes of [balm_page]. *)
Definition balm_record : ProductRecord :=
  {| product_data.product_name := Some "Night Balm";
     product_data.brand := "Qudo Beauty";
     product_data.category := None;
     product_data.ingredients := None;
     product_data.size := None;
     product_data.image_url := Some "//cdn.qudobeauty.com/balm.png";
     product_data.product_url := Some balm |}.

End Fixture.

(** ** More sites *)
Module Site.

(** No page loads. *)
Definition offline : World :=
  {| page_get := fun _ => Raise WebDriverException;
     ready_state := ready_state Fixture.bare;
     clickable := clickable Fixture.bare;
     scroll_to_bottom := scroll_to_bottom Fixture.bare;
     scroll_height := scroll_height Fixture.bare;
     find_elements := find_elements Fixture.bare;
     find_element := find_element Fixture.bare |}.

(** Pages load, and the script that reads the ready state fails. *)
Definition unready : World :=
  {| page_get := page_get Fixture.bare;
     ready_state := fun _ => Raise WebDriverException;
     clickable := clickable Fixture.bare;
     scroll_to_bottom := scroll_to_bottom Fixture.bare;
     scroll_height := scroll_height Fixture.bare;
     find_elements := find_elements Fixture.bare;
     find_element := find_element Fixture.bare |}.

(** [Fixture.bare], with the given answers to the waits of the Navigator. *)
Definition nav (answers : string -> result (result unit)) : World :=
  {| page_get := page_get Fixture.bare;
     ready_state := ready_state Fixture.bare;
     clickable := fun _ x => answers x;
     scroll_to_bottom := scroll_to_bottom Fixture.bare;
     scroll_height := scroll_height Fixture.bare;
     find_elements := find_elements Fixture.bare;
     find_element := find_element Fixture.bare |}.

(** The second candidate is found, and its click is intercepted. *)
Definition intercepted : World :=
  nav (fun x =>
         if String.eqb x "//a[contains(text(), 'SKINCARE')]"
         then Ok (Raise WebDriverException)
         else Raise TimeoutException).

(** The first candidate is found and its click times out; the others are
    not found. *)
Definition slow_click : World :=
  nav (fun x =>
         if String.eqb x "//a[contains(text(), 'Skincare')]"
         then Ok (Raise TimeoutException)
         else Raise TimeoutException).

End Site.

(** ** Python strings, on examples *)

Example strip_ex : PyStr.strip "  Rose Serum  " = "Rose Serum".
Proof. reflexivity. Qed.

Example strip_blank : PyStr.strip "   " = "".
Proof. reflexivity. Qed.

Example lower_ex : PyStr.lower "/Products/SkinCare-Oil" = "/products/skincare-oil".
Proof. reflexivity. Qed.

Example contains_ex :
  PyStr.contains "skincare" "https://qudobeauty.com/products/skincare-oil" = true
  /\ PyStr.contains "skincare" "https://qudobeauty.com/products/lipstick" = false.
Proof. split; reflexivity. Qed.

(** ** Reasoning about the monad *)

Lemma bind_ok_inv {A B} (m : M A) (f : A -> M B) s b s' :
  bind m f s = (Ok b, s') ->
  exists a s1, m s = (Ok a, s1) /\ f a s1 = (Ok b, s').
Proof.
  unfold bind. destruct (m s) as [[a|e] s1]; intros H.
  - exists a, s1. auto.
  - discriminate.
Qed.

Lemma bind_run_ok {A B} (m : M A) (f : A -> M B) s a s1 :
  m s = (Ok a, s1) -> bind m f s = f a s1.
Proof. unfold bind. intros ->. reflexivity. Qed.

Lemma geb_false_lt a b : (a >=? b) = false -> a < b.
Proof. rewrite Z.geb_leb. apply Z.leb_gt. Qed.

(** ** The Link Collector *)

Lemma contains_products_nonempty u :
  PyStr.contains "/products/" u = true -> PyStr.nonempty u = true.
Proof. destruct u; [discriminate | reflexivity]. Qed.

(** The condition of the code is the inclusion rule of the specification. *)
Lemma keep_spec h links max :
  keep h links max = true <-> category_matching h \/ below_cap links max.
Proof.
  unfold keep, category_matching, below_cap.
  rewrite orb_true_iff, Z.ltb_lt. split.
  - intros [H | H]; [left | right; exact H].
    destruct h as [u|]; [| discriminate].
    apply andb_true_iff in H as [H H3]. apply andb_true_iff in H as [_ H2].
    exists u. auto.
  - intros [(u & -> & H2 & H3) | H]; [left | right; exact H].
    rewrite (contains_products_nonempty _ H2), H2, H3. reflexivity.
Qed.

Lemma visit_kept h links max :
  keep h links max = true -> (visit max links h).1 = {[ h ]} ∪ links.
Proof. unfold visit. intros ->. reflexivity. Qed.

Lemma visit_dropped h links max :
  keep h links max = false -> (visit max links h).1 = links.
Proof. unfold visit. intros ->. reflexivity. Qed.


Lemma visit_readable max links h links' :
  readable max links -> visit max links h = (links', false) -> readable max links'.
Proof.
  unfold visit. intros Hr. destruct (keep h links max).
  - intros [= <- H]. left. unfold below_cap.
    apply geb_false_lt. exact H.
  - intros [= <-]. exact Hr.
Qed.

Lemma scan_elements_readable max elems : forall links,
  readable max links ->
  Forall (fun r => readable max r.1) (reads_elements max links elems)
  /\ (forall links' e, scan_elements max links elems = (links', Raise e) ->
      readable max links')
  /\ (forall links', scan_elements max links elems = (links', Ok tt) ->
      Z.of_nat (size links') < max -> readable max links').
Proof.
  induction elems as [| [h|e] rest IH]; intros links Hr; simpl.
  - split; [constructor |]. split; [discriminate |].
    intros links' [= <-] _. exact Hr.
  - destruct (visit max links h) as [links1 [|]] eqn:Hv.
    + split; [apply List.Forall_cons; [exact Hr | apply List.Forall_nil] |].
      split; [discriminate |].
      intros links' [= <-] Hlt. left. exact Hlt.
    + destruct (IH links1 (visit_readable _ _ _ _ Hr Hv)) as (IH1 & IH2 & IH3).
      split; [apply List.Forall_cons; [exact Hr | exact IH1] |]. split; assumption.
  - split; [constructor |]. split.
    + intros links' e' [= <- _]. exact Hr.
    + discriminate.
Qed.

Lemma reads_selectors_readable w p max selectors : forall links,
  readable max links ->
  Forall (fun r => readable max r.1) (reads_selectors w p max links selectors).
Proof.
  induction selectors as [| x rest IH]; intros links Hr; simpl; [constructor |].
  destruct (find_elements w p x) as [elems|e]; [| apply IH, Hr].
  destruct (scan_elements_readable max elems links Hr) as (H1 & H2 & H3).
  apply Forall_app. split; [exact H1 |].
  destruct (scan_elements max links elems) as [links' [[]|e]] eqn:Hs.
  - destruct (Z.of_nat (size links') >=? max) eqn:Hc; [constructor |].
    apply IH, (H3 _ eq_refl).
    apply geb_false_lt. exact Hc.
  - apply IH, (H2 _ _ eq_refl).
Qed.

(** The reads are those of the loops: running the body over them gives
    the set the loops end with. *)
Lemma replay_app max links r1 r2 :
  replay max links (r1 ++ r2) = replay max (replay max links r1) r2.
Proof. unfold replay. apply fold_left_app. Qed.

Lemma reads_elements_faithful max elems : forall links,
  replay max links (reads_elements max links elems)
  = (scan_elements max links elems).1.
Proof.
  induction elems as [| [h|e] rest IH]; intros links; simpl; try reflexivity.
  unfold replay. simpl.
  destruct (visit max links h) as [links1 [|]] eqn:Hv; simpl.
  - reflexivity.
  - apply IH.
Qed.

Lemma reads_selectors_faithful w p max selectors : forall links,
  replay max links (reads_selectors w p max links selectors)
  = scan_selectors w p max links selectors.
Proof.
  induction selectors as [| x rest IH]; intros links; simpl; [reflexivity |].
  destruct (find_elements w p x) as [elems|e]; [| apply IH].
  rewrite replay_app, reads_elements_faithful.
  destruct (scan_elements max links elems) as [links' [[]|e]]; simpl.
  - destruct (Z.of_nat (size links') >=? max); [reflexivity | apply IH].
  - apply IH.
Qed.

(** The set kept with each read is the set the body has made of the
    reads before it. *)
Lemma chained_app max r1 : forall start r2,
  chained max start (r1 ++ r2)
  <-> chained max start r1 /\ chained max (replay max start r1) r2.
Proof.
  induction r1 as [| [l h] r1 IH]; intros start r2; simpl.
  - unfold replay. simpl. tauto.
  - rewrite IH. unfold replay. simpl. tauto.
Qed.

Lemma reads_elements_chained max elems : forall links,
  chained max links (reads_elements max links elems).
Proof.
  induction elems as [| [h|e] rest IH]; intros links; simpl; [exact I | | exact I].
  split; [reflexivity |].
  destruct (visit max links h) as [links1 [|]] eqn:Hv; simpl; [exact I | apply IH].
Qed.

Lemma reads_selectors_chained w p max selectors : forall links,
  chained max links (reads_selectors w p max links selectors).
Proof.
  induction selectors as [| x rest IH]; intros links; simpl; [exact I |].
  destruct (find_elements w p x) as [elems|e]; [| apply IH].
  apply chained_app. split; [apply reads_elements_chained |].
  rewrite reads_elements_faithful.
  destruct (scan_elements max links elems) as [links' [[]|e]]; simpl.
  - destruct (Z.of_nat (size links') >=? max); [exact I | apply IH].
  - apply IH.
Qed.

Lemma empty_readable max : readable max ∅.
Proof. right. reflexivity. Qed.

Lemma slice_to_NoDup {A} (l : list A) n : NoDup l -> NoDup (slice_to l n).
Proof.
  intros H. unfold slice_to.
  destruct (0 <=? n); eapply sublist_NoDup; eauto using sublist_take.
Qed.

Lemma slice_to_length {A} (l : list A) n :
  0 <= n -> Z.of_nat (List.length (slice_to l n)) <= n.
Proof.
  intros H. unfold slice_to.
  destruct (0 <=? n) eqn:E; [| apply Z.leb_gt in E; lia].
  rewrite length_take. lia.
Qed.

(** What [extract_product_links] returns is the slice of the scanned set. *)
Lemma extract_product_links_ok w max s l s' :
  extract_product_links w max s = (Ok l, s') ->
  l = slice_to
        (elements (scan_selectors w (current (driver s')) max ∅ link_selectors))
        max.
Proof.
  unfold extract_product_links. intros H.
  apply bind_ok_inv in H as (h0 & s1 & _ & H).
  apply bind_ok_inv in H as ([] & s2 & _ & H).
  apply bind_ok_inv in H as (p & s3 & Hp & H).
  unfold here in Hp. injection Hp as <- <-.
  unfold ret in H. injection H as <- <-. reflexivity.
Qed.

Lemma script_scroll_run w k s :
  scroll_to_bottom w (current (driver s)) k = Ok tt ->
  script_scroll w k s
  = (Ok tt,
     after s [CScript "window.scrollTo(0, document.body.scrollHeight);"]
       (current (driver s))).
Proof.
  intros H. unfold script_scroll, bind, send, here, lift. simpl. rewrite H.
  reflexivity.
Qed.

Lemma script_height_run w k h s :
  scroll_height w (current (driver s)) k = Ok h ->
  script_height w k s
  = (Ok h,
     after s [CScript "return document.body.scrollHeight"] (current (driver s))).
Proof.
  intros H. unfold script_height, bind, send, here, lift. simpl. rewrite H.
  reflexivity.
Qed.

Lemma scroll_loop_returns w remaining : forall last k s,
  scripts_run w (current (driver s)) ->
  exists s', scroll_loop w remaining last k s = (Ok tt, s')
             /\ current (driver s') = current (driver s).
Proof.
  induction remaining as [| n IH]; intros last k s Hrun; simpl.
  - exists s. split; reflexivity.
  - destruct Hrun as [Hs Hh].
    rewrite (bind_run_ok _ _ _ _ _ (script_scroll_run w k s (Hs k))).
    destruct (Hh (S k)) as [h Hk].
    match goal with |- context [bind _ _ ?t] => set (s1 := t) end.
    rewrite (bind_run_ok _ _ _ _ _ (script_height_run w (S k) h s1 Hk)).
    destruct (h =? last).
    + eexists. split; reflexivity.
    + match goal with |- context [scroll_loop _ _ _ _ ?t] => set (s2 := t) end.
      destruct (IH h (S k) s2) as (s' & E & Hc); [split; assumption |].
      exists s'. split; [exact E | exact Hc].
Qed.

(** When the scroll scripts run, [extract_product_links] returns. *)
Lemma extract_product_links_returns w max s :
  scripts_run w (current (driver s)) ->
  exists l, (extract_product_links w max s).1 = Ok l.
Proof.
  intros Hrun. unfold extract_product_links.
  destruct (proj2 Hrun 0%nat) as [h Hh].
  rewrite (bind_run_ok _ _ _ _ _ (script_height_run w 0 h s Hh)).
  match goal with |- context [bind _ _ ?t] => set (s1 := t) end.
  destruct (scroll_loop_returns w max_scrolls h 0 s1 Hrun) as (s2 & E & _).
  rewrite (bind_run_ok _ _ _ _ _ E).
  eexists. reflexivity.
Qed.

(** ** What a computation may do to the scraper

    The rules of [steps P], for [P] reflexive and transitive. *)
Section Steps.

Variable P : QudobeautyScraper -> QudobeautyScraper -> Prop.
Hypothesis P_refl : forall s, P s s.
Hypothesis P_trans : forall s1 s2 s3, P s1 s2 -> P s2 s3 -> P s1 s3.


Lemma steps_ret {A} (a : A) : steps P (ret a).
Proof. intros s. apply P_refl. Qed.

Lemma steps_lift {A} (r : result A) : steps P (lift r).
Proof. intros s. apply P_refl. Qed.

Lemma steps_here : steps P here.
Proof. intros s. apply P_refl. Qed.

Lemma steps_bind {A B} (m : M A) (f : A -> M B) :
  steps P m -> (forall a, steps P (f a)) -> steps P (bind m f).
Proof.
  intros Hm Hf s. unfold bind. specialize (Hm s).
  destruct (m s) as [[a|e] s1]; simpl in *.
  - eapply P_trans; [exact Hm | apply Hf].
  - exact Hm.
Qed.

Lemma steps_try_except {A} (m : M A) (h : exn -> option (M A)) :
  steps P m -> (forall e m', h e = Some m' -> steps P m') -> steps P (try_except m h).
Proof.
  intros Hm Hh s. unfold try_except. specialize (Hm s).
  destruct (m s) as [[a|e] s1]; simpl in *; [exact Hm |].
  destruct (h e) as [m'|] eqn:E; [| exact Hm].
  eapply P_trans; [exact Hm | apply (Hh _ _ E)].
Qed.

Lemma steps_on_timeout {A} (m m' : M A) :
  steps P m -> steps P m' -> steps P (try_except m (on_timeout m')).
Proof.
  intros Hm Hm'. apply steps_try_except; [exact Hm |].
  intros [] m1 [= <-]. exact Hm'.
Qed.

Lemma steps_on_no_such_element {A} (m m' : M A) :
  steps P m -> steps P m' -> steps P (try_except m (on_no_such_element m')).
Proof.
  intros Hm Hm'. apply steps_try_except; [exact Hm |].
  intros [] m1 [= <-]. exact Hm'.
Qed.

Lemma steps_on_exception {A} (m m' : M A) :
  steps P m -> steps P m' -> steps P (try_except m (on_exception m')).
Proof.
  intros Hm Hm'. apply steps_try_except; [exact Hm |].
  intros e m1 [= <-]. exact Hm'.
Qed.

Lemma steps_try_finally {A} (m : M A) (f : M unit) :
  steps P m -> steps P f -> steps P (try_finally m f).
Proof.
  intros Hm Hf s. unfold try_finally. specialize (Hm s).
  destruct (m s) as [r s1]. specialize (Hf s1).
  destruct (f s1) as [[u|e] s2]; simpl in *; eapply P_trans; eauto.
Qed.

End Steps.

Lemma steps_weaken (P Q : QudobeautyScraper -> QudobeautyScraper -> Prop)
    {A} (m : M A) :
  (forall s s', P s s' -> Q s s') -> steps P m -> steps Q m.
Proof. intros HPQ Hm s. apply HPQ, Hm. Qed.


Lemma no_quit_refl s : no_quit s s.
Proof. exists []. split; [symmetry; apply app_nil_r | apply not_elem_of_nil]. Qed.

Lemma no_quit_trans s1 s2 s3 : no_quit s1 s2 -> no_quit s2 s3 -> no_quit s1 s3.
Proof.
  intros (c1 & E1 & H1) (c2 & E2 & H2). exists (c1 ++ c2)%list. split.
  - rewrite E2, E1. symmetry. apply app_assoc.
  - rewrite elem_of_app. tauto.
Qed.

Lemma grows_named_refl s : grows_named s s.
Proof. exists []. split; [symmetry; apply app_nil_r | apply List.Forall_nil]. Qed.

Lemma grows_named_trans s1 s2 s3 :
  grows_named s1 s2 -> grows_named s2 s3 -> grows_named s1 s3.
Proof.
  intros (n1 & E1 & H1) (n2 & E2 & H2). exists (n1 ++ n2)%list. split.
  - rewrite E2, E1. symmetry. apply app_assoc.
  - apply Forall_app. split; assumption.
Qed.

Lemma calm_refl s : calm s s.
Proof. split; [reflexivity | apply no_quit_refl]. Qed.

Lemma calm_trans s1 s2 s3 : calm s1 s2 -> calm s2 s3 -> calm s1 s3.
Proof.
  intros [E1 H1] [E2 H2]. split; [congruence | eapply no_quit_trans; eauto].
Qed.

Lemma calm_no_quit s s' : calm s s' -> no_quit s s'.
Proof. intros [_ H]. exact H. Qed.

Lemma calm_grows_named s s' : calm s s' -> grows_named s s'.
Proof.
  intros [E _]. exists []. split; [rewrite E; symmetry; apply app_nil_r |].
  apply List.Forall_nil.
Qed.

Lemma calm_send c : c <> CQuit -> steps calm (send c).
Proof.
  intros Hc s. split; [reflexivity |]. exists [c]. split; [reflexivity |].
  intros H. apply list_elem_of_singleton in H. congruence.
Qed.

Lemma calm_goto p : steps calm (goto p).
Proof.
  intros s. split; [reflexivity |]. exists []. simpl.
  split; [symmetry; apply app_nil_r | apply not_elem_of_nil].
Qed.

(** Applies the rules of [steps calm] along the structure of a computation. *)
Ltac calm_step :=
  lazymatch goal with
  | |- steps calm (bind _ _) => apply (steps_bind calm calm_trans); [| intros ?]
  | |- steps calm (try_except _ (on_timeout _)) =>
      apply (steps_on_timeout calm calm_trans)
  | |- steps calm (try_except _ (on_no_such_element _)) =>
      apply (steps_on_no_such_element calm calm_trans)
  | |- steps calm (try_except _ (on_exception _)) =>
      apply (steps_on_exception calm calm_trans)
  | |- steps calm (ret _) => apply (steps_ret calm calm_refl)
  | |- steps calm (lift _) => apply (steps_lift calm calm_refl)
  | |- steps calm here => apply (steps_here calm calm_refl)
  | |- steps calm (goto _) => apply calm_goto
  | |- steps calm (send _) => apply calm_send; discriminate
  | |- steps calm (if ?b then _ else _) => destruct b
  | |- steps calm (match ?o with Some _ => _ | None => _ end) => destruct o
  end.

Create HintDb calm.

Ltac calm_steps := repeat calm_step; auto with calm.

Section Calm.

Variable w : World.

Lemma calm_driver_get url : steps calm (driver_get w url).
Proof. unfold driver_get. calm_steps. Qed.

Lemma calm_wait_ready t : steps calm (wait_ready w t).
Proof. unfold wait_ready. calm_steps. Qed.

Lemma calm_wait_clickable x t : steps calm (wait_clickable w x t).
Proof. unfold wait_clickable. calm_steps. Qed.

Lemma calm_click x r : steps calm (click x r).
Proof. unfold click. calm_steps. Qed.

Lemma calm_script_scroll k : steps calm (script_scroll w k).
Proof. unfold script_scroll. calm_steps. Qed.

Lemma calm_script_height k : steps calm (script_height w k).
Proof. unfold script_height. calm_steps. Qed.

Hint Resolve calm_driver_get calm_wait_ready calm_wait_clickable calm_click
  calm_script_scroll calm_script_height : calm.

Lemma calm_wait_for_page_load t : steps calm (_wait_for_page_load w t).
Proof. unfold _wait_for_page_load. calm_steps. Qed.

Lemma calm_safe_find_element b v : steps calm (_safe_find_element w b v).
Proof. unfold _safe_find_element. calm_steps. Qed.

Lemma calm_safe_get_attribute b v a : steps calm (_safe_get_attribute w b v a).
Proof. unfold _safe_get_attribute. calm_steps. Qed.

Hint Resolve calm_wait_for_page_load calm_safe_find_element
  calm_safe_get_attribute : calm.

Lemma calm_try_skincare_selectors selectors :
  steps calm (try_skincare_selectors w selectors).
Proof. induction selectors as [| x rest IH]; simpl; calm_steps. Qed.

Hint Resolve calm_try_skincare_selectors : calm.

Lemma calm_navigate_to_skincare : steps calm (navigate_to_skincare w).
Proof. unfold navigate_to_skincare. calm_steps. Qed.

Lemma calm_scroll_loop remaining : forall last k,
  steps calm (scroll_loop w remaining last k).
Proof. induction remaining as [| n IH]; intros last k; simpl; calm_steps. Qed.

Hint Resolve calm_scroll_loop : calm.

Lemma calm_extract_product_links max : steps calm (extract_product_links w max).
Proof. unfold extract_product_links. calm_steps. Qed.

Lemma calm_probe_text selectors : forall field,
  steps calm (probe_text w field selectors).
Proof.
  induction selectors as [| [b x] rest IH]; intros field; simpl; calm_steps.
Qed.

Lemma calm_probe_image selectors : forall field,
  steps calm (probe_image w field selectors).
Proof.
  induction selectors as [| [b x] rest IH]; intros field; simpl; calm_steps.
Qed.

Hint Resolve calm_probe_text calm_probe_image : calm.

Lemma calm_scrape_product_page_try url : steps calm (scrape_product_page_try w url).
Proof. unfold scrape_product_page_try. calm_steps. Qed.

Hint Resolve calm_scrape_product_page_try : calm.

Lemma calm_scrape_product_page url : steps calm (scrape_product_page w url).
Proof. unfold scrape_product_page. calm_steps. Qed.

End Calm.

#[global] Hint Resolve calm_navigate_to_skincare calm_extract_product_links
  calm_scrape_product_page : calm.

(** ** The Run Controller *)

Lemma truthy_named (r : ProductRecord) :
  PyStr.truthy (product_data.product_name r) = true -> named r.
Proof.
  unfold named. destruct (product_data.product_name r) as [n|]; [| discriminate].
  intros H. exists n. split; [reflexivity |]. intros ->. discriminate.
Qed.

Lemma grows_named_append (r : ProductRecord) :
  named r -> steps grows_named (products_append r).
Proof.
  intros Hr s. exists [r]. split; [reflexivity |].
  apply List.Forall_cons; [exact Hr | apply List.Forall_nil].
Qed.

Lemma grows_named_send (c : command) : steps grows_named (send c).
Proof.
  intros s. exists []. simpl.
  split; [symmetry; apply app_nil_r | apply List.Forall_nil].
Qed.

Lemma no_quit_append (r : ProductRecord) : steps no_quit (products_append r).
Proof.
  intros s. exists []. simpl.
  split; [symmetry; apply app_nil_r | apply not_elem_of_nil].
Qed.

Lemma grows_named_scrape_links w links : steps grows_named (scrape_links w links).
Proof.
  induction links as [| link rest IH]; simpl.
  - apply (steps_ret _ grows_named_refl).
  - apply (steps_bind _ grows_named_trans).
    { apply (steps_weaken calm); [apply calm_grows_named | auto with calm]. }
    intros [pd|].
    + apply (steps_bind _ grows_named_trans); [| intros _; exact IH].
      destruct (PyStr.truthy (product_data.product_name pd)) eqn:E.
      * apply grows_named_append, truthy_named, E.
      * apply (steps_ret _ grows_named_refl).
    + apply (steps_bind _ grows_named_trans); [| intros _; exact IH].
      apply (steps_ret _ grows_named_refl).
Qed.

Lemma no_quit_scrape_links w links : steps no_quit (scrape_links w links).
Proof.
  induction links as [| link rest IH]; simpl.
  - apply (steps_ret _ no_quit_refl).
  - apply (steps_bind _ no_quit_trans).
    { apply (steps_weaken calm); [apply calm_no_quit | auto with calm]. }
    intros [pd|].
    + apply (steps_bind _ no_quit_trans); [| intros _; exact IH].
      destruct (PyStr.truthy (product_data.product_name pd)).
      * apply no_quit_append.
      * apply (steps_ret _ no_quit_refl).
    + apply (steps_bind _ no_quit_trans); [| intros _; exact IH].
      apply (steps_ret _ no_quit_refl).
Qed.


Lemma steps_scrape_products_guarded
    (P : QudobeautyScraper -> QudobeautyScraper -> Prop) w max :
  (forall s, P s s) -> (forall s1 s2 s3, P s1 s2 -> P s2 s3 -> P s1 s3) ->
  (forall s s', calm s s' -> P s s') ->
  (forall links, steps P (scrape_links w links)) ->
  steps P (scrape_products_guarded w max).
Proof.
  intros Hrefl Htrans Hcalm Hlinks. unfold scrape_products_guarded.
  apply (steps_on_exception _ Htrans); [| apply (steps_ret _ Hrefl)].
  apply (steps_bind _ Htrans).
  { apply (steps_weaken calm); [exact Hcalm | auto with calm]. }
  intros _. apply (steps_bind _ Htrans).
  { apply (steps_weaken calm); [exact Hcalm | auto with calm]. }
  intros links. apply (steps_bind _ Htrans); [apply Hlinks |].
  intros _. apply (steps_ret _ Hrefl).
Qed.

(** Whatever happens in the [try] block, the guarded block returns. *)
Lemma scrape_products_guarded_returns w max s :
  (scrape_products_guarded w max s).1 = Ok tt.
Proof.
  unfold scrape_products_guarded, try_except, on_exception.
  match goal with |- context [bind ?m ?f s] => destruct (bind m f s) as [[[]|e] s1] end;
    reflexivity.
Qed.

Lemma filter_quit_app (l1 l2 : list command) :
  filter (fun c => c = CQuit) (l1 ++ l2)%list
  = (filter (fun c => c = CQuit) l1 ++ filter (fun c => c = CQuit) l2)%list.
Proof. apply filter_app. Qed.

Lemma filter_quit_none (l : list command) :
  CQuit ∉ l -> filter (fun c => c = CQuit) l = [].
Proof.
  induction l as [| c l IH]; intros H; [reflexivity |].
  rewrite not_elem_of_cons in H. destruct H as [Hc Hl].
  rewrite filter_cons_False by congruence. apply IH, Hl.
Qed.

(** ** Computations that only look at the place of the browser *)

Lemma place_only_ret {A} (a : A) : place_only (ret a).
Proof. intros s1 s2 H. split; [reflexivity | exact H]. Qed.

Lemma place_only_lift {A} (r : result A) : place_only (lift r).
Proof. intros s1 s2 H. split; [reflexivity | exact H]. Qed.

Lemma place_only_here : place_only here.
Proof. intros s1 s2 H. split; [unfold here; simpl; f_equal; exact H | exact H]. Qed.

Lemma place_only_send c : place_only (send c).
Proof. intros s1 s2 H. split; [reflexivity | exact H]. Qed.

Lemma place_only_goto p : place_only (goto p).
Proof. intros s1 s2 H. split; reflexivity. Qed.

Lemma place_only_bind {A B} (m : M A) (f : A -> M B) :
  place_only m -> (forall a, place_only (f a)) -> place_only (bind m f).
Proof.
  intros Hm Hf s1 s2 H. unfold bind. destruct (Hm s1 s2 H) as [Hr Ha].
  destruct (m s1) as [r1 t1], (m s2) as [r2 t2]. simpl in Hr, Ha. subst r2.
  destruct r1 as [a|e]; [apply Hf, Ha | split; [reflexivity | exact Ha]].
Qed.

Lemma place_only_try_except {A} (m : M A) (h : exn -> option (M A)) :
  place_only m -> (forall e m', h e = Some m' -> place_only m') ->
  place_only (try_except m h).
Proof.
  intros Hm Hh s1 s2 H. unfold try_except. destruct (Hm s1 s2 H) as [Hr Ha].
  destruct (m s1) as [r1 t1], (m s2) as [r2 t2]. simpl in Hr, Ha. subst r2.
  destruct r1 as [a|e]; [split; [reflexivity | exact Ha] |].
  destruct (h e) as [m'|] eqn:E; [apply (Hh _ _ E), Ha |].
  split; [reflexivity | exact Ha].
Qed.

Lemma place_only_on_timeout {A} (m m' : M A) :
  place_only m -> place_only m' -> place_only (try_except m (on_timeout m')).
Proof.
  intros Hm Hm'. apply place_only_try_except; [exact Hm |].
  intros [] m1 [= <-]. exact Hm'.
Qed.

Lemma place_only_on_no_such_element {A} (m m' : M A) :
  place_only m -> place_only m' ->
  place_only (try_except m (on_no_such_element m')).
Proof.
  intros Hm Hm'. apply place_only_try_except; [exact Hm |].
  intros [] m1 [= <-]. exact Hm'.
Qed.

Lemma place_only_on_exception {A} (m m' : M A) :
  place_only m -> place_only m' -> place_only (try_except m (on_exception m')).
Proof.
  intros Hm Hm'. apply place_only_try_except; [exact Hm |].
  intros e m1 [= <-]. exact Hm'.
Qed.

Create HintDb place.

Ltac place_step :=
  lazymatch goal with
  | |- place_only (bind _ _) => apply place_only_bind; [| intros ?]
  | |- place_only (try_except _ (on_timeout _)) => apply place_only_on_timeout
  | |- place_only (try_except _ (on_no_such_element _)) =>
      apply place_only_on_no_such_element
  | |- place_only (try_except _ (on_exception _)) => apply place_only_on_exception
  | |- place_only (ret _) => apply place_only_ret
  | |- place_only (lift _) => apply place_only_lift
  | |- place_only here => apply place_only_here
  | |- place_only (goto _) => apply place_only_goto
  | |- place_only (send _) => apply place_only_send
  | |- place_only (if ?b then _ else _) => destruct b
  | |- place_only (match ?o with Some _ => _ | None => _ end) => destruct o
  end.

Ltac place_steps := repeat place_step; auto with place.

Section Place.

Variable w : World.

Lemma place_only_wait_for_page_load t : place_only (_wait_for_page_load w t).
Proof. unfold _wait_for_page_load, wait_ready. place_steps. Qed.

Lemma place_only_safe_find_element b v : place_only (_safe_find_element w b v).
Proof. unfold _safe_find_element. place_steps. Qed.

Lemma place_only_safe_get_attribute b v a :
  place_only (_safe_get_attribute w b v a).
Proof. unfold _safe_get_attribute. place_steps. Qed.

Hint Resolve place_only_wait_for_page_load place_only_safe_find_element
  place_only_safe_get_attribute : place.

Lemma place_only_probe_text selectors : forall field,
  place_only (probe_text w field selectors).
Proof.
  induction selectors as [| [b x] rest IH]; intros field; simpl; place_steps.
Qed.

Lemma place_only_probe_image selectors : forall field,
  place_only (probe_image w field selectors).
Proof.
  induction selectors as [| [b x] rest IH]; intros field; simpl; place_steps.
Qed.

Hint Resolve place_only_probe_text place_only_probe_image : place.

(** [driver.get(url)] gives the same outcome from every state, and when it
    returns the browser is at the page of [url]. *)
Lemma driver_get_run url s :
  driver_get w url s
  = match page_get w url with
    | Ok _ =>
        (Ok tt,
         {| products := products s;
            driver := {| current := Page url;
                         log := log (driver s) ++ [CGet url] |} |})
    | Raise e =>
        (Raise e,
         {| products := products s;
            driver := {| current := current (driver s);
                         log := log (driver s) ++ [CGet url] |} |})
    end.
Proof.
  unfold driver_get, bind, send, lift, goto. simpl.
  destruct (page_get w url) as [[]|e]; reflexivity.
Qed.

Lemma scrape_product_page_try_oblivious url :
  oblivious (scrape_product_page_try w url).
Proof.
  intros s1 s2. unfold scrape_product_page_try.
  unfold bind at 1. unfold bind at 9.
  rewrite !driver_get_run.
  destruct (page_get w url) as [[]|e]; [| reflexivity].
  match goal with
  | |- (?m _).1 = (?m _).1 => assert (H : place_only m)
  end.
  { place_steps. }
  apply H. reflexivity.
Qed.

Lemma scrape_product_page_oblivious url : oblivious (scrape_product_page w url).
Proof.
  intros s1 s2. unfold scrape_product_page, try_except.
  pose proof (scrape_product_page_try_oblivious url s1 s2) as H.
  destruct (scrape_product_page_try w url s1) as [r1 t1],
           (scrape_product_page_try w url s2) as [r2 t2].
  simpl in H. subst r2. destruct r1; reflexivity.
Qed.

(** [scrape_product_page] returns, with a record or with [None]. *)
Lemma scrape_product_page_returns url s :
  exists o, (scrape_product_page w url s).1 = Ok o.
Proof.
  unfold scrape_product_page, try_except.
  destruct (scrape_product_page_try w url s) as [[o|e] t]; simpl; eauto.
Qed.


(** One turn of the loop over the links. *)
Lemma scrape_links_cons link rest s :
  scrape_links w (link :: rest) s
  = match scrape_product_page w link s with
    | (Ok (Some pd), t) =>
        if PyStr.truthy (product_data.product_name pd)
        then scrape_links w rest
               {| products := products t ++ [pd]; driver := driver t |}
        else scrape_links w rest t
    | (Ok None, t) => scrape_links w rest t
    | (Raise e, t) => (Raise e, t)
    end.
Proof.
  simpl. unfold bind.
  destruct (scrape_product_page w link s) as [[[pd|]|e] t]; try reflexivity.
  destruct (PyStr.truthy (product_data.product_name pd)); reflexivity.
Qed.

(** The products after the loop depend on the state before it only through
    its products. *)
Lemma scrape_links_products links : forall s1 s2,
  products s1 = products s2 ->
  products (scrape_links w links s1).2 = products (scrape_links w links s2).2.
Proof.
  induction links as [| link rest IH]; intros s1 s2 H; [exact H |].
  rewrite !scrape_links_cons.
  pose proof (scrape_product_page_oblivious link s1 s2) as Hr.
  pose proof (calm_scrape_product_page w link s1) as [H1 _].
  pose proof (calm_scrape_product_page w link s2) as [H2 _].
  destruct (scrape_product_page_returns link s1) as [o Ho].
  destruct (scrape_product_page w link s1) as [r1 t1],
           (scrape_product_page w link s2) as [r2 t2].
  simpl in *. subst r2 r1.
  destruct o as [pd|]; [destruct (PyStr.truthy _) |];
    apply IH; simpl; congruence.
Qed.



End Place.

(** ** The Navigator *)
Section Navigator.

Variable w : World.

Lemma after_after s c1 p1 c2 p2 :
  after (after s c1 p1) c2 p2 = after s (c1 ++ c2) p2.
Proof. unfold after. simpl. rewrite <- app_assoc. reflexivity. Qed.

Lemma after_nil s : after s [] (current (driver s)) = s.
Proof.
  destruct s as [ps [p l]]. unfold after. simpl. rewrite app_nil_r. reflexivity.
Qed.

Lemma wait_for_page_load_settles t s :
  settles w (current (driver s)) ->
  _wait_for_page_load w t s = (Ok tt, after s [CWaitReady t] (current (driver s))).
Proof.
  unfold _wait_for_page_load, wait_ready, try_except, bind, send, here, lift.
  simpl. intros [H | H]; rewrite H; reflexivity.
Qed.

Lemma try_skincare_selectors_times_out x rest s :
  times_out w (current (driver s)) x ->
  try_skincare_selectors w (x :: rest) s
  = try_skincare_selectors w rest
      (after s [CWaitClickable x 5] (current (driver s))).
Proof.
  unfold times_out. intros H. simpl.
  unfold try_except at 1, bind at 1, wait_clickable, bind, send, here, lift.
  simpl. rewrite H. reflexivity.
Qed.

Lemma try_skincare_selectors_clicks x rest s :
  clicks_through w (current (driver s)) x ->
  try_skincare_selectors w (x :: rest) s
  = (Ok true,
     after s [CWaitClickable x 5; CClick x; CWaitReady 15]
       (Clicked (current (driver s)) x)).
Proof.
  unfold clicks_through. intros [H Hs]. simpl.
  unfold try_except at 1, bind at 1, wait_clickable, bind, send, here, lift.
  simpl. rewrite H. unfold click, bind, send, lift, here, goto. simpl.
  rewrite wait_for_page_load_settles by exact Hs.
  unfold ret, after. simpl. rewrite <- !app_assoc. reflexivity.
Qed.

Lemma try_skincare_selectors_all_time_out pre : forall rest s,
  Forall (times_out w (current (driver s))) pre ->
  try_skincare_selectors w (pre ++ rest) s
  = try_skincare_selectors w rest (after s (waits pre) (current (driver s))).
Proof.
  induction pre as [| x pre IH]; intros rest s H.
  - simpl. rewrite after_nil. reflexivity.
  - apply Forall_cons in H as [Hx H].
    rewrite <- app_comm_cons, (try_skincare_selectors_times_out _ _ _ Hx).
    rewrite IH by exact H. simpl. rewrite after_after. reflexivity.
Qed.

Lemma navigate_to_skincare_home s :
  home_loads w ->
  navigate_to_skincare w s
  = try_except (try_skincare_selectors w skincare_selectors)
      (on_exception (ret false))
      (after s [CGet (Some base_url); CWaitReady 15] Home).
Proof.
  intros [Hg Hs]. unfold navigate_to_skincare.
  unfold bind at 1. rewrite driver_get_run, Hg.
  unfold bind at 1. rewrite wait_for_page_load_settles by exact Hs.
  simpl. unfold after. simpl. rewrite <- app_assoc. reflexivity.
Qed.

End Navigator.

(** ** The Field Extractor *)
Section Extractor.

Variable w : World.

Lemma safe_find_element_run b v s :
  _safe_find_element w b v s
  = (match find_element w (current (driver s)) b v with
     | Ok e => Ok (if PyStr.nonempty (text e)
                   then Some (PyStr.strip (text e)) else None)
     | Raise NoSuchElementException => Ok None
     | Raise e => Raise e
     end, s).
Proof.
  unfold _safe_find_element, try_except, bind, here, lift, ret. simpl.
  destruct (find_element w (current (driver s)) b v) as [e|[]]; reflexivity.
Qed.

Lemma safe_get_attribute_run b v a s :
  _safe_get_attribute w b v a s
  = (match find_element w (current (driver s)) b v with
     | Ok e => Ok (get_attribute e a)
     | Raise NoSuchElementException => Ok None
     | Raise e => Raise e
     end, s).
Proof.
  unfold _safe_get_attribute, try_except, bind, here, lift, ret. simpl.
  destruct (find_element w (current (driver s)) b v) as [e|[]]; reflexivity.
Qed.

Lemma strip_nonempty t :
  PyStr.nonempty (PyStr.strip t) = true -> PyStr.nonempty t = true.
Proof. destruct t; [discriminate | reflexivity]. Qed.

(** What [_safe_find_element] returns is what the candidate yields. *)
Lemma safe_find_element_yield b v s fv s' :
  _safe_find_element w b v s = (Ok fv, s') ->
  s' = s
  /\ text_of (find_element w (current (driver s))) (b, v)
     = (if PyStr.truthy fv then fv else None).
Proof.
  rewrite safe_find_element_run. unfold text_of. simpl.
  destruct (find_element w (current (driver s)) b v) as [e|[]];
    intros [= <- <-]; (split; [reflexivity |]); try reflexivity.
  destruct (PyStr.nonempty (text e)) eqn:E1; simpl.
  - destruct (PyStr.nonempty (PyStr.strip (text e))); reflexivity.
  - destruct (PyStr.nonempty (PyStr.strip (text e))) eqn:E2; [| reflexivity].
    apply strip_nonempty in E2. congruence.
Qed.

Lemma safe_get_attribute_yield b v a s fv s' :
  _safe_get_attribute w b v a s = (Ok fv, s') ->
  s' = s
  /\ attribute_of a (find_element w (current (driver s))) (b, v)
     = (if PyStr.truthy fv then fv else None)
  /\ (forall e, find_element w (current (driver s)) b v = Ok e ->
      fv = get_attribute e a)
  /\ (forall e, find_element w (current (driver s)) b v = Raise e -> fv = None).
Proof.
  rewrite safe_get_attribute_run. unfold attribute_of. simpl.
  destruct (find_element w (current (driver s)) b v) as [e|[]];
    intros [= <- <-]; (split; [reflexivity |]).
  - split; [| split; [intros e' [= <-]; reflexivity | discriminate]].
    destruct (get_attribute e a) as [u|]; [| reflexivity]. simpl.
    destruct (PyStr.nonempty u); reflexivity.
  - split; [reflexivity |]. split; [discriminate | reflexivity].
Qed.

(** The loop over the candidates of a text field returns the value of the
    first candidate that yields one; when none does, what it returns is
    falsy, as long as the field was. *)
Lemma probe_text_first selectors : forall field s v s',
  probe_text w field selectors s = (Ok v, s') ->
  s' = s
  /\ match first_of (text_of (find_element w (current (driver s)))) selectors with
     | Some t => v = Some t /\ PyStr.truthy v = true
     | None => PyStr.truthy field = false -> PyStr.truthy v = false
     end.
Proof.
  induction selectors as [| [b x] rest IH]; intros field s v s' H; simpl in H.
  - injection H as <- <-. simpl. auto.
  - apply bind_ok_inv in H as (fv & s1 & Hf & H).
    apply safe_find_element_yield in Hf as [-> Hy].
    simpl. rewrite Hy.
    destruct (PyStr.truthy fv) eqn:E.
    + injection H as <- <-. split; [reflexivity |].
      destruct fv; [split; [reflexivity | exact E] | discriminate].
    + apply IH in H as [-> H]. split; [reflexivity |].
      destruct (first_of _ rest); [exact H | intros _; exact (H E)].
Qed.

Lemma ensure_full_url_nonempty u :
  PyStr.nonempty u = true -> PyStr.nonempty (ensure_full_url u) = true.
Proof.
  intros H. unfold ensure_full_url.
  destruct (PyStr.startswith u "//"); [reflexivity |].
  destruct (PyStr.startswith u "/"); [reflexivity | exact H].
Qed.

Lemma probe_image_first selectors : forall field s v s',
  probe_image w field selectors s = (Ok v, s') ->
  s' = s
  /\ match first_of (attribute_of "src" (find_element w (current (driver s))))
             selectors with
     | Some u => v = Some (ensure_full_url u) /\ PyStr.truthy v = true
     | None => PyStr.truthy field = false -> PyStr.truthy v = false
     end.
Proof.
  induction selectors as [| [b x] rest IH]; intros field s v s' H; simpl in H.
  - injection H as <- <-. simpl. auto.
  - apply bind_ok_inv in H as (fv & s1 & Hf & H).
    apply safe_get_attribute_yield in Hf as (-> & Hy & _).
    simpl. rewrite Hy.
    destruct fv as [u|]; simpl in *.
    + destruct (PyStr.nonempty u) eqn:E.
      * injection H as <- <-. split; [reflexivity |].
        split; [reflexivity | apply ensure_full_url_nonempty, E].
      * apply IH in H as [-> H]. split; [reflexivity |].
        destruct (first_of _ rest); [exact H | intros _; exact (H E)].
    + apply IH in H as [-> H]. split; [reflexivity |].
      destruct (first_of _ rest); [exact H | intros _; exact (H eq_refl)].
Qed.

Lemma wait_for_page_load_ok t s u s' :
  _wait_for_page_load w t s = (Ok u, s') ->
  current (driver s') = current (driver s).
Proof.
  unfold _wait_for_page_load, wait_ready, try_except, bind, send, here, lift.
  simpl. destruct (ready_state w (current (driver s))) as [[]|[]];
    simpl; intros [= <- <-]; reflexivity.
Qed.

(** The metadata fallback: the field is kept when truthy, and is the
    content of the tag otherwise. *)
Lemma meta_fallback field selector s v s' :
  (if negb (PyStr.truthy field)
   then _safe_get_attribute w CSS_SELECTOR selector "content"
   else ret field) s = (Ok v, s') ->
  s' = s
  /\ v = (if PyStr.truthy field then field
          else meta_content (find_element w (current (driver s))) selector).
Proof.
  destruct (PyStr.truthy field); simpl.
  - intros [= <- <-]. split; reflexivity.
  - intros H. apply safe_get_attribute_yield in H as (-> & _ & H1 & H2).
    split; [reflexivity |]. unfold meta_content.
    destruct (find_element w (current (driver s)) CSS_SELECTOR selector) as [e|e].
    + apply (H1 e eq_refl).
    + apply (H2 e eq_refl).
Qed.

(** What the [try] block returns, field by field. *)
Lemma scrape_product_page_try_fields url s r s' :
  scrape_product_page_try w url s = (Ok (Some r), s') ->
  let pg := find_element w (Page url) in
  match first_of (text_of pg) name_selectors with
  | Some v => product_data.product_name r = Some v
  | None => product_data.product_name r
            = meta_content pg "meta[property='og:title']"
  end
  /\ match first_of (text_of pg) category_selectors with
     | Some v => product_data.category r = Some v
     | None => PyStr.truthy (product_data.category r) = false
     end
  /\ match first_of (text_of pg) ingredient_selectors with
     | Some v => product_data.ingredients r = Some v
     | None => PyStr.truthy (product_data.ingredients r) = false
     end
  /\ match first_of (text_of pg) size_selectors with
     | Some v => product_data.size r = Some v
     | None => PyStr.truthy (product_data.size r) = false
     end
  /\ match first_of (attribute_of "src" pg) image_selectors with
     | Some u => product_data.image_url r = Some (ensure_full_url u)
     | None => product_data.image_url r
               = meta_content pg "meta[property='og:image']"
     end
  /\ product_data.product_url r = url
  /\ product_data.brand r = "Qudo Beauty".
Proof.
  intros H pg. unfold scrape_product_page_try in H.
  apply bind_ok_inv in H as ([] & s1 & Hget & H).
  rewrite driver_get_run in Hget.
  destruct (page_get w url) as [[]|e]; [| discriminate].
  injection Hget as <-.
  apply bind_ok_inv in H as ([] & s2 & Hwait & H).
  apply wait_for_page_load_ok in Hwait. simpl in Hwait.
  apply bind_ok_inv in H as (name & t & Hname & H).
  apply probe_text_first in Hname as [-> Hname].
  apply bind_ok_inv in H as (cat & t & Hcat & H).
  apply probe_text_first in Hcat as [-> Hcat].
  apply bind_ok_inv in H as (ing & t & Hing & H).
  apply probe_text_first in Hing as [-> Hing].
  apply bind_ok_inv in H as (sz & t & Hsz & H).
  apply probe_text_first in Hsz as [-> Hsz].
  apply bind_ok_inv in H as (img & t & Himg & H).
  apply probe_image_first in Himg as [-> Himg].
  apply bind_ok_inv in H as (name' & t & Hname' & H).
  apply meta_fallback in Hname' as [-> Hname'].
  apply bind_ok_inv in H as (img' & t & Himg' & H).
  apply meta_fallback in Himg' as [-> Himg'].
  injection H as <- <-.
  cbn [product_data.product_name product_data.category
       product_data.ingredients product_data.size product_data.image_url
       product_data.product_url product_data.brand].
  rewrite Hwait in *. fold pg in Hname, Hcat, Hing, Hsz, Himg, Hname', Himg'.
  repeat split.
  - destruct (first_of (text_of pg) name_selectors).
    + destruct Hname as [-> Ht]. rewrite Ht in Hname'. exact Hname'.
    + rewrite (Hname eq_refl) in Hname'. exact Hname'.
  - destruct (first_of (text_of pg) category_selectors); [apply Hcat | auto].
  - destruct (first_of (text_of pg) ingredient_selectors); [apply Hing | auto].
  - destruct (first_of (text_of pg) size_selectors); [apply Hsz | auto].
  - destruct (first_of (attribute_of "src" pg) image_selectors).
    + destruct Himg as [-> Ht]. rewrite Ht in Himg'. exact Himg'.
    + rewrite (Himg eq_refl) in Himg'. exact Himg'.
Qed.

Lemma scrape_product_page_some url s r :
  (scrape_product_page w url s).1 = Ok (Some r) ->
  exists s', scrape_product_page_try w url s = (Ok (Some r), s').
Proof.
  unfold scrape_product_page, try_except, on_exception, ret.
  destruct (scrape_product_page_try w url s) as [[o|e] s']; simpl.
  - intros [= ->]. eauto.
  - discriminate.
Qed.

Lemma safe_find_element_benign b v s :
  benign (find_element w (current (driver s))) ->
  exists fv, _safe_find_element w b v s = (Ok fv, s).
Proof.
  intros Hb. rewrite safe_find_element_run.
  destruct (find_element w (current (driver s)) b v) as [e|e] eqn:E; [eauto |].
  rewrite (Hb _ _ _ E). eauto.
Qed.

Lemma safe_get_attribute_benign b v a s :
  benign (find_element w (current (driver s))) ->
  exists fv, _safe_get_attribute w b v a s = (Ok fv, s).
Proof.
  intros Hb. rewrite safe_get_attribute_run.
  destruct (find_element w (current (driver s)) b v) as [e|e] eqn:E; [eauto |].
  rewrite (Hb _ _ _ E). eauto.
Qed.

Lemma probe_text_benign selectors : forall field s,
  benign (find_element w (current (driver s))) ->
  exists v, probe_text w field selectors s = (Ok v, s).
Proof.
  induction selectors as [| [b x] rest IH]; intros field s Hb; simpl.
  - exists field. reflexivity.
  - destruct (safe_find_element_benign b x s Hb) as [fv Hf].
    rewrite (bind_run_ok _ _ _ _ _ Hf).
    destruct (PyStr.truthy fv); [exists fv; reflexivity | apply IH, Hb].
Qed.

Lemma probe_image_benign selectors : forall field s,
  benign (find_element w (current (driver s))) ->
  exists v, probe_image w field selectors s = (Ok v, s).
Proof.
  induction selectors as [| [b x] rest IH]; intros field s Hb; simpl.
  - exists field. reflexivity.
  - destruct (safe_get_attribute_benign b x "src" s Hb) as [fv Hf].
    rewrite (bind_run_ok _ _ _ _ _ Hf).
    destruct fv as [u|]; [destruct (PyStr.nonempty u) |];
      try (apply IH, Hb). eexists. reflexivity.
Qed.

Lemma meta_fallback_benign field selector s :
  benign (find_element w (current (driver s))) ->
  exists v,
    (if negb (PyStr.truthy field)
     then _safe_get_attribute w CSS_SELECTOR selector "content"
     else ret field) s = (Ok v, s).
Proof.
  intros Hb. destruct (negb (PyStr.truthy field)).
  - apply safe_get_attribute_benign, Hb.
  - exists field. reflexivity.
Qed.

(** A page that loads and on which no lookup fails gives a record. *)
Lemma scrape_product_page_try_returns url s :
  page_loads w url -> benign (find_element w (Page url)) ->
  exists r s', scrape_product_page_try w url s = (Ok (Some r), s').
Proof.
  intros [Hg Hs] Hb. unfold scrape_product_page_try.
  unfold bind at 1. rewrite driver_get_run, Hg.
  unfold bind at 1. rewrite wait_for_page_load_settles by exact Hs.
  match goal with |- context [bind _ _ ?t] => set (s2 := t) end.
  assert (Hb2 : benign (find_element w (current (driver s2)))) by exact Hb.
  destruct (probe_text_benign name_selectors None s2 Hb2) as [name Hname].
  rewrite (bind_run_ok _ _ _ _ _ Hname).
  destruct (probe_text_benign category_selectors None s2 Hb2) as [cat Hcat].
  rewrite (bind_run_ok _ _ _ _ _ Hcat).
  destruct (probe_text_benign ingredient_selectors None s2 Hb2) as [ing Hing].
  rewrite (bind_run_ok _ _ _ _ _ Hing).
  destruct (probe_text_benign size_selectors None s2 Hb2) as [sz Hsz].
  rewrite (bind_run_ok _ _ _ _ _ Hsz).
  destruct (probe_image_benign image_selectors None s2 Hb2) as [img Himg].
  rewrite (bind_run_ok _ _ _ _ _ Himg).
  destruct (meta_fallback_benign name "meta[property='og:title']" s2 Hb2)
    as [name' Hname'].
  rewrite (bind_run_ok _ _ _ _ _ Hname').
  destruct (meta_fallback_benign img "meta[property='og:image']" s2 Hb2)
    as [img' Himg'].
  rewrite (bind_run_ok _ _ _ _ _ Himg').
  eexists. eexists. reflexivity.
Qed.

Lemma scrape_product_page_returns_record url s :
  page_loads w url -> benign (find_element w (Page url)) ->
  exists r, (scrape_product_page w url s).1 = Ok (Some r).
Proof.
  intros Hl Hb.
  destruct (scrape_product_page_try_returns url s Hl Hb) as (r & s' & H).
  exists r. unfold scrape_product_page, try_except. rewrite H. reflexivity.
Qed.

Lemma falsy_no_text v : PyStr.truthy v = false -> no_text v.
Proof.
  unfold no_text. destruct v as [[|c u]|]; auto. discriminate.
Qed.

End Extractor.

(** ** The fixtures *)

Lemma page_of_benign entries : benign (Fixture.page_of entries).
Proof.
  intros b x e. unfold Fixture.page_of.
  match goal with |- context [List.find ?f entries] => destruct (List.find f entries) end;
    [discriminate | intros [= <-]; reflexivity].
Qed.

(** A run over three product pages: one with every field, one whose page
    does not load, one with metadata only.  Two records come out, and the
    driver is released after the last page. *)
Example three_pages_run :
  (scrape_products Fixture.three_pages 30 init).1 = Ok tt
  /\ products (scrape_products Fixture.three_pages 30 init).2
     = [Fixture.serum_record; Fixture.toner_record]
  /\ last (log (driver (scrape_products Fixture.three_pages 30 init).2))
     = Some CQuit.
Proof. vm_compute. repeat split. Qed.

(** A site that does not answer at all: the run still returns, with no
    product, and releases the driver. *)
Example crash_run :
  let crash : World :=
    {| page_get := fun _ => Raise WebDriverException;
       ready_state := fun _ => Raise WebDriverException;
       clickable := fun _ _ => Raise WebDriverException;
       scroll_to_bottom := fun _ _ => Raise WebDriverException;
       scroll_height := fun _ _ => Raise WebDriverException;
       find_elements := fun _ _ => Raise WebDriverException;
       find_element := fun _ _ _ => Raise WebDriverException |} in
  scrape_products crash 30 init
  = (Ok tt,
     {| products := [];
        driver := {| current := Blank;
                     log := [CGet (Some base_url); CQuit] |} |}).
Proof. reflexivity. Qed.

(** ** The Link Collector: scrolling *)
Section Scrolling.

Variable w : World.

Lemma script_scroll_outcome k s :
  script_scroll w k s
  = (scroll_to_bottom w (current (driver s)) k,
     after s [scroll_script] (current (driver s))).
Proof.
  unfold script_scroll, bind, send, here, lift. simpl.
  destruct (scroll_to_bottom w (current (driver s)) k); reflexivity.
Qed.

Lemma script_height_outcome k s :
  script_height w k s
  = (scroll_height w (current (driver s)) k,
     after s [height_script] (current (driver s))).
Proof.
  unfold script_height, bind, send, here, lift. simpl.
  destruct (scroll_height w (current (driver s)) k); reflexivity.
Qed.

Lemma scrolls_cons_scroll cmds : scrolls (scroll_script :: cmds) = S (scrolls cmds).
Proof. unfold scrolls. rewrite filter_cons_True by reflexivity. reflexivity. Qed.

Lemma scrolls_cons_height cmds : scrolls (height_script :: cmds) = scrolls cmds.
Proof. unfold scrolls. rewrite filter_cons_False by discriminate. reflexivity. Qed.

Lemma scrolls_nil : scrolls [] = 0%nat.
Proof. reflexivity. Qed.

Lemma scroll_loop_commands remaining : forall last k s,
  exists cmds,
    (scroll_loop w remaining last k s).2 = after s cmds (current (driver s))
    /\ scroll_commands remaining cmds.
Proof.
  induction remaining as [| n IH]; intros last k s; simpl.
  - exists []. rewrite after_nil. split; [reflexivity |].
    split; [apply List.Forall_nil | split; [rewrite scrolls_nil; lia | simpl; lia]].
  - unfold bind at 1. rewrite script_scroll_outcome.
    destruct (scroll_to_bottom w (current (driver s)) k) as [[]|e].
    + unfold bind at 1. rewrite script_height_outcome. simpl.
      destruct (scroll_height w (current (driver s)) (S k)) as [h|e].
      * destruct (h =? last).
        -- exists [scroll_script; height_script]. unfold ret. simpl.
           rewrite after_after. split; [reflexivity |].
           split; [repeat (apply List.Forall_cons; [auto |]); apply List.Forall_nil |].
           rewrite scrolls_cons_scroll, scrolls_cons_height, ?scrolls_nil. simpl. lia.
        -- match goal with
           | |- context [scroll_loop w n h (S k) ?t] =>
               destruct (IH h (S k) t) as (cmds & E & HF & Hs & Hl); rewrite E
           end.
           exists (scroll_script :: height_script :: cmds). simpl.
           rewrite !after_after. split; [reflexivity |].
           split; [repeat (apply List.Forall_cons; [auto |]); exact HF |].
           rewrite scrolls_cons_scroll, scrolls_cons_height, ?scrolls_nil. simpl. lia.
      * exists [scroll_script; height_script]. simpl. rewrite after_after.
        split; [reflexivity |].
        split; [repeat (apply List.Forall_cons; [auto |]); apply List.Forall_nil |].
        rewrite scrolls_cons_scroll, scrolls_cons_height, ?scrolls_nil. simpl. lia.
    + exists [scroll_script]. simpl. split; [reflexivity |].
      split; [repeat (apply List.Forall_cons; [auto |]); apply List.Forall_nil |].
      rewrite scrolls_cons_scroll, scrolls_nil. simpl. lia.
Qed.

Lemma extract_product_links_commands max s :
  exists cmds,
    (extract_product_links w max s).2 = after s cmds (current (driver s))
    /\ Forall (fun c => c = scroll_script \/ c = height_script) cmds
    /\ (scrolls cmds <= max_scrolls)%nat
    /\ (List.length cmds <= 2 * max_scrolls + 1)%nat.
Proof.
  unfold extract_product_links. unfold bind at 1.
  rewrite script_height_outcome.
  destruct (scroll_height w (current (driver s)) 0) as [h|e].
  - unfold bind at 1.
    match goal with
    | |- context [scroll_loop w max_scrolls h 0 ?t] =>
        destruct (scroll_loop_commands max_scrolls h 0%nat t)
          as (cmds & E & HF & Hs & Hl);
        destruct (scroll_loop w max_scrolls h 0 t) as [[[]|e] t'] eqn:Et
    end; simpl in E; subst t'.
    + exists (height_script :: cmds). unfold bind, here, ret. simpl.
      rewrite after_after. split; [reflexivity |].
      split; [apply List.Forall_cons; [auto | exact HF] |].
      rewrite scrolls_cons_height. unfold max_scrolls in *. simpl in *. lia.
    + exists (height_script :: cmds). simpl.
      rewrite after_after. split; [reflexivity |].
      split; [apply List.Forall_cons; [auto | exact HF] |].
      rewrite scrolls_cons_height. unfold max_scrolls in *. simpl in *. lia.
  - exists [height_script]. simpl. split; [reflexivity |].
    split; [apply List.Forall_cons; [auto | apply List.Forall_nil] |].
    rewrite scrolls_cons_height, scrolls_nil. unfold max_scrolls. simpl. lia.
Qed.

End Scrolling.

(** ** The Link Collector: what the scan collects *)
Section Scan.

Variable w : World.

Lemma visit_sound max links h' h :
  h ∈ (visit max links h').1 -> h = h' \/ h ∈ links.
Proof.
  unfold visit. destruct (keep h' links max); simpl; [| auto].
  rewrite elem_of_union, elem_of_singleton. tauto.
Qed.

Lemma visit_grows max links h' : links ⊆ (visit max links h').1.
Proof.
  unfold visit. destruct (keep h' links max); simpl; set_solver.
Qed.

Lemma scan_elements_sound max elems : forall links h,
  h ∈ (scan_elements max links elems).1 -> h ∈ links \/ Ok h ∈ elems.
Proof.
  induction elems as [| [h'|e] rest IH]; intros links h; simpl; [auto | | auto].
  pose proof (visit_sound max links h' h) as Hv.
  destruct (visit max links h') as [links1 [|]]; simpl in *.
  - intros H. destruct (Hv H) as [-> | H']; [right; left | left; exact H'].
  - intros H. destruct (IH _ _ H) as [H1 | H1].
    + destruct (Hv H1) as [-> | H']; [right; left | left; exact H'].
    + right. right. exact H1.
Qed.

Lemma scan_elements_grows max elems : forall links,
  links ⊆ (scan_elements max links elems).1.
Proof.
  induction elems as [| [h'|e] rest IH]; intros links; simpl; [done | | done].
  pose proof (visit_grows max links h') as Hv.
  destruct (visit max links h') as [links1 [|]]; simpl in *; [exact Hv |].
  etransitivity; [exact Hv | apply IH].
Qed.

Lemma scan_selectors_sound p max selectors : forall links h,
  h ∈ scan_selectors w p max links selectors ->
  h ∈ links
  \/ exists x elems, x ∈ selectors
                     /\ find_elements w p x = Ok elems /\ Ok h ∈ elems.
Proof.
  induction selectors as [| x rest IH]; intros links h; simpl; [auto |].
  assert (Hrest : forall links',
    (h ∈ links' -> h ∈ links \/ exists elems,
        find_elements w p x = Ok elems /\ Ok h ∈ elems) ->
    h ∈ scan_selectors w p max links' rest ->
    h ∈ links
    \/ exists x0 elems, x0 ∈ x :: rest
                        /\ find_elements w p x0 = Ok elems /\ Ok h ∈ elems).
  { intros links' Hl H. destruct (IH _ _ H) as [H1 | (x0 & elems & Hx & Hf & Hh)].
    - destruct (Hl H1) as [H2 | (elems & Hf & Hh)]; [left; exact H2 |].
      right. exists x, elems. split; [left | auto].
    - right. exists x0, elems. split; [right; exact Hx | auto]. }
  destruct (find_elements w p x) as [elems|e] eqn:Ef.
  - pose proof (scan_elements_sound max elems links h) as Hs.
    destruct (scan_elements max links elems) as [links' [[]|e]]; simpl in Hs.
    + destruct (Z.of_nat (size links') >=? max).
      * intros H. destruct (Hs H) as [H1 | H1]; [left; exact H1 |].
        right. exists x, elems. split; [left | auto].
      * apply Hrest. intros H. destruct (Hs H); eauto.
    + apply Hrest. intros H. destruct (Hs H); eauto.
  - apply Hrest. auto.
Qed.

Lemma scan_selectors_grows p max selectors : forall links,
  links ⊆ scan_selectors w p max links selectors.
Proof.
  induction selectors as [| x rest IH]; intros links; simpl; [done |].
  destruct (find_elements w p x) as [elems|e]; [| apply IH].
  pose proof (scan_elements_grows max elems links) as Hg.
  destruct (scan_elements max links elems) as [links' [[]|e]]; simpl in Hg.
  - destruct (Z.of_nat (size links') >=? max); [exact Hg |].
    etransitivity; [exact Hg | apply IH].
  - etransitivity; [exact Hg | apply IH].
Qed.

End Scan.

Lemma geb_true_le a b : (a >=? b) = true -> b <= a.
Proof. rewrite Z.geb_leb. apply Z.leb_le. Qed.

Section ScanCap.

Variable w : World.

Lemma size_add_le (h : href) (links : gset href) :
  (size ({[ h ]} ∪ links) <= S (size links))%nat.
Proof.
  rewrite size_union_alt, size_singleton.
  apply le_n_S, subseteq_size, subseteq_difference_l. reflexivity.
Qed.

(** While the set is below the cap, the scan of the elements of one
    selector keeps it within the cap, and it is below the cap when the
    scan is left by an exception. *)
Lemma scan_elements_cap max elems : forall links,
  Z.of_nat (size links) < max ->
  Z.of_nat (size (scan_elements max links elems).1) <= max
  /\ (forall e, (scan_elements max links elems).2 = Raise e ->
      Z.of_nat (size (scan_elements max links elems).1) < max).
Proof.
  induction elems as [| [h|e] rest IH]; intros links Hlt; simpl.
  - split; [lia | discriminate].
  - unfold visit. destruct (keep h links max).
    + pose proof (size_add_le h links) as Hs.
      destruct (Z.of_nat (size ({[h]} ∪ links)) >=? max) eqn:Hc; simpl.
      * split; [lia | discriminate].
      * apply IH, geb_false_lt, Hc.
    + apply IH, Hlt.
  - split; [lia | intros _ _; exact Hlt].
Qed.

Lemma scan_selectors_cap p max selectors : forall links,
  Z.of_nat (size links) < max ->
  Z.of_nat (size (scan_selectors w p max links selectors)) <= max.
Proof.
  induction selectors as [| x rest IH]; intros links Hlt; simpl; [lia |].
  destruct (find_elements w p x) as [elems|e]; [| apply IH, Hlt].
  destruct (scan_elements_cap max elems links Hlt) as [Hle Hr].
  destruct (scan_elements max links elems) as [links' [[]|e]]; simpl in *.
  - destruct (Z.of_nat (size links') >=? max) eqn:Hc; [exact Hle |].
    apply IH, geb_false_lt, Hc.
  - apply IH, (Hr e eq_refl).
Qed.

(** With a cap of zero or less, the scan ends with at most one href. *)
Lemma scan_elements_no_cap max elems :
  max <= 0 ->
  (scan_elements max ∅ elems).1 = ∅
  \/ (size (scan_elements max ∅ elems).1 = 1%nat
      /\ (scan_elements max ∅ elems).2 = Ok tt).
Proof.
  intros Hmax. induction elems as [| [h|e] rest IH]; simpl; [auto | | auto].
  unfold visit. destruct (keep h ∅ max); [| exact IH].
  assert (Hs : size ({[h]} ∪ (∅ : gset href)) = 1%nat)
    by (rewrite union_empty_r_L; apply size_singleton).
  destruct (Z.of_nat (size ({[h]} ∪ ∅)) >=? max) eqn:Hc; simpl.
  - right. split; [exact Hs | reflexivity].
  - apply geb_false_lt in Hc. lia.
Qed.

Lemma scan_selectors_no_cap p max selectors :
  max <= 0 ->
  (size (scan_selectors w p max ∅ selectors) <= 1)%nat.
Proof.
  intros Hmax. induction selectors as [| x rest IH].
  - cbn [scan_selectors]. rewrite size_empty. lia.
  - cbn [scan_selectors].
    destruct (find_elements w p x) as [elems|e]; [| exact IH].
    destruct (scan_elements_no_cap max elems Hmax) as [H | [H1 H2]].
    + destruct (scan_elements max ∅ elems) as [links' [[]|e]]; simpl in H;
        subst links'; [| exact IH].
      destruct (Z.of_nat (size ∅) >=? max); [rewrite size_empty; lia | exact IH].
    + destruct (scan_elements max ∅ elems) as [links' st]; simpl in H1, H2.
      subst st.
      destruct (Z.of_nat (size links') >=? max) eqn:Hc; [lia |].
      apply geb_false_lt in Hc. lia.
Qed.

(** A scan over elements that all give their href is not left by an
    exception. *)
Lemma scan_elements_all_ok max elems : forall links,
  Forall (fun r => exists h, r = Ok h) elems ->
  (scan_elements max links elems).2 = Ok tt.
Proof.
  induction elems as [| r rest IH]; intros links H; simpl; [reflexivity |].
  apply Forall_cons in H as [[h ->] H].
  destruct (visit max links h) as [links1 [|]]; [reflexivity | apply IH, H].
Qed.

(** When the scan of one selector ends below the cap, every href of its
    elements is in the set. *)
Lemma scan_elements_complete max elems : forall links,
  Z.of_nat (size (scan_elements max links elems).1) < max ->
  Forall (fun r => exists h, r = Ok h) elems ->
  forall h, Ok h ∈ elems -> h ∈ (scan_elements max links elems).1.
Proof.
  induction elems as [| r rest IH]; intros links Hlt Hok h Hin.
  - apply elem_of_nil in Hin. contradiction.
  - apply Forall_cons in Hok as [[h' ->] Hok].
    pose proof (scan_elements_grows max (Ok h' :: rest) links) as Hg.
    simpl in Hlt, Hg |- *.
    assert (Hk : keep h' links max = true).
    { apply keep_spec. right. unfold below_cap.
      apply subseteq_size in Hg. lia. }
    unfold visit in *. rewrite Hk in *.
    destruct (Z.of_nat (size ({[h']} ∪ links)) >=? max) eqn:Hc; simpl in *.
    + apply geb_true_le in Hc. lia.
    + apply elem_of_cons in Hin as [[= ->] | Hin].
      * apply (scan_elements_grows max rest). set_solver.
      * apply IH; assumption.
Qed.

Lemma scan_selectors_complete p max selectors : forall links,
  Z.of_nat (size (scan_selectors w p max links selectors)) < max ->
  forall x elems h,
    x ∈ selectors -> find_elements w p x = Ok elems ->
    Forall (fun r => exists h, r = Ok h) elems ->
    Ok h ∈ elems ->
    h ∈ scan_selectors w p max links selectors.
Proof.
  induction selectors as [| x0 rest IH]; intros links Hlt x elems h Hx Hf Hok Hin.
  - apply elem_of_nil in Hx. contradiction.
  - simpl in Hlt |- *. apply elem_of_cons in Hx.
    destruct (find_elements w p x0) as [elems0|e] eqn:Ef0.
    + pose proof (scan_elements_all_ok max elems0 links) as Hall.
      pose proof (scan_elements_complete max elems0 links) as Hc.
      destruct (scan_elements max links elems0) as [links' [[]|e]];
        simpl in Hall, Hc.
      * destruct (Z.of_nat (size links') >=? max) eqn:Hcap.
        -- apply geb_true_le in Hcap. lia.
        -- destruct Hx as [-> | Hx].
           ++ rewrite Ef0 in Hf. injection Hf as <-.
              apply (scan_selectors_grows w p max rest links').
              apply Hc; [apply geb_false_lt, Hcap | exact Hok | exact Hin].
           ++ eapply IH; eauto.
      * destruct Hx as [-> | Hx].
        -- rewrite Ef0 in Hf. injection Hf as <-.
           specialize (Hall Hok). discriminate.
        -- eapply IH; eauto.
    + destruct Hx as [-> | Hx]; [congruence | eapply IH; eauto].
Qed.

End ScanCap.

Lemma slice_to_elem {A} (l : list A) n h : h ∈ slice_to l n -> h ∈ l.
Proof.
  unfold slice_to. intros H.
  destruct (0 <=? n); eapply elem_of_sublist; eauto using sublist_take.
Qed.

Lemma slice_to_all {A} (l : list A) n :
  Z.of_nat (List.length l) <= n -> slice_to l n = l.
Proof.
  intros H. unfold slice_to.
  destruct (0 <=? n) eqn:E; [| apply Z.leb_gt in E; lia].
  apply take_ge. lia.
Qed.

Lemma slice_to_short {A} (l : list A) n :
  n <= 0 -> (List.length l <= 1)%nat -> slice_to l n = [].
Proof.
  intros Hn Hl. unfold slice_to. destruct (0 <=? n) eqn:E.
  - apply Z.leb_le in E. replace n with 0 by lia. reflexivity.
  - replace (Z.to_nat (Z.of_nat (List.length l) + n)) with 0%nat by lia.
    reflexivity.
Qed.

Lemma size_elements (X : gset href) : List.length (elements X) = size X.
Proof. reflexivity. Qed.

(** What [extract_product_links] returns, from the place the browser is at
    when it is called. *)
Lemma extract_product_links_result w max s l :
  (extract_product_links w max s).1 = Ok l ->
  l = slice_to
        (elements (scan_selectors w (current (driver s)) max ∅ link_selectors))
        max.
Proof.
  intros H.
  destruct (extract_product_links_commands w max s) as (cmds & E & _).
  destruct (extract_product_links w max s) as [r s'] eqn:Ex.
  simpl in H, E. subst r s'.
  apply extract_product_links_ok in Ex. exact Ex.
Qed.

(** ** The reads and the set of the scan *)

(** What the body of the loop makes of a chain of reads: the hrefs of the
    start, and those that were kept when they were read. *)
Lemma replay_members max reads : forall start,
  chained max start reads ->
  forall h,
    h ∈ replay max start reads
    <-> h ∈ start \/ exists links, (links, h) ∈ reads /\ keep h links max = true.
Proof.
  induction reads as [| [l0 h0] reads IH]; intros start Hc h.
  - unfold replay. simpl. split; [auto |].
    intros [H | (links & Hin & _)]; [exact H |].
    apply elem_of_nil in Hin. contradiction.
  - destruct Hc as [-> Hc].
    change (replay max start ((start, h0) :: reads))
      with (replay max (visit max start h0).1 reads).
    rewrite (IH _ Hc h). split.
    + intros [H | (links & Hin & Hk)].
      * unfold visit in H. destruct (keep h0 start max) eqn:E; simpl in H.
        -- apply elem_of_union in H as [H | H]; [| left; exact H].
           apply elem_of_singleton in H. subst h.
           right. exists start. split; [left | exact E].
        -- left. exact H.
      * right. exists links. split; [right; exact Hin | exact Hk].
    + intros [H | (links & Hin & Hk)].
      * left. apply (visit_grows max start h0). exact H.
      * apply elem_of_cons in Hin as [[= -> ->] | Hin].
        -- left. rewrite (visit_kept _ _ _ Hk).
           apply elem_of_union. left. apply elem_of_singleton. reflexivity.
        -- right. exists links. split; [exact Hin | exact Hk].
Qed.

(** Every href of the reads is the href of an element a selector found. *)
Lemma reads_elements_sound max elems : forall links l h,
  (l, h) ∈ reads_elements max links elems -> Ok h ∈ elems.
Proof.
  induction elems as [| [h'|e] rest IH]; intros links l h H; simpl in H.
  - apply elem_of_nil in H. contradiction.
  - apply elem_of_cons in H as [[= -> ->] | H]; [left |].
    right. destruct (visit max links h') as [links1 [|]].
    + apply elem_of_nil in H. contradiction.
    + eapply IH, H.
  - apply elem_of_nil in H. contradiction.
Qed.

Lemma reads_selectors_sound w p max selectors : forall links l h,
  (l, h) ∈ reads_selectors w p max links selectors ->
  exists x elems,
    x ∈ selectors /\ find_elements w p x = Ok elems /\ Ok h ∈ elems.
Proof.
  induction selectors as [| x rest IH]; intros links l h H; simpl in H.
  - apply elem_of_nil in H. contradiction.
  - assert (Hrest : forall links',
      (l, h) ∈ reads_selectors w p max links' rest ->
      exists x0 elems,
        x0 ∈ x :: rest /\ find_elements w p x0 = Ok elems /\ Ok h ∈ elems).
    { intros links' H'. destruct (IH _ _ _ H') as (x0 & elems & Hx & Hf & Hh).
      exists x0, elems. split; [right; exact Hx | auto]. }
    destruct (find_elements w p x) as [elems|e] eqn:Ef; [| apply (Hrest _ H)].
    apply elem_of_app in H as [H | H].
    + exists x, elems. split; [left |]. split; [exact Ef |].
      eapply reads_elements_sound, H.
    + destruct (scan_elements max links elems) as [links' [[]|e]];
        [| apply (Hrest _ H)].
      destruct (Z.of_nat (size links') >=? max); [| apply (Hrest _ H)].
      apply elem_of_nil in H. contradiction.
Qed.

(** * The claims *)

(** C1. Every href the Link Collector reads, with [product_links] as it is
    when the href is read, is added to the result set if and only if it
    contains [/products/] and, whatever the case, [skincare], or the set
    is still below the maximum count; an href with neither is left out and
    the set stays as it is.  The reads are those of the code: each is the
    href of an element a link selector found, each starts from the set the
    reads before it have made, and together they make the set
    [scan_selectors] ends with.  So that set, of which
    [extract_product_links] returns the slice (all of it for a maximum
    count of one or more), holds exactly the hrefs that had one of the two
    when they were read. *)
Theorem link_added_iff (w : World) (p : place) (max_products : Z) :
  let reads := reads_selectors w p max_products ∅ link_selectors in
  let result := scan_selectors w p max_products ∅ link_selectors in
  (forall product_links h,
     (product_links, h) ∈ reads ->
     (exists selector elems,
        selector ∈ link_selectors
        /\ find_elements w p selector = Ok elems /\ Ok h ∈ elems)
     /\ (h ∈ (visit max_products product_links h).1
         <-> category_matching h \/ below_cap product_links max_products)
     /\ (category_matching h \/ below_cap product_links max_products ->
         (visit max_products product_links h).1 = {[ h ]} ∪ product_links)
     /\ (~ (category_matching h \/ below_cap product_links max_products) ->
         (visit max_products product_links h).1 = product_links))
  /\ chained max_products ∅ reads
  /\ replay max_products ∅ reads = result
  /\ (forall h,
        h ∈ result
        <-> exists product_links,
              (product_links, h) ∈ reads
              /\ (category_matching h \/ below_cap product_links max_products))
  /\ (forall s l,
        current (driver s) = p ->
        (extract_product_links w max_products s).1 = Ok l ->
        l = slice_to (elements result) max_products
        /\ (1 <= max_products ->
            forall h,
              h ∈ l
              <-> exists product_links,
                    (product_links, h) ∈ reads
                    /\ (category_matching h
                        \/ below_cap product_links max_products))).
Proof.
  intros reads result.
  assert (Hmem : forall h,
    h ∈ result
    <-> exists product_links,
          (product_links, h) ∈ reads
          /\ (category_matching h \/ below_cap product_links max_products)).
  { intros h. unfold result.
    rewrite <- (reads_selectors_faithful w p max_products link_selectors ∅).
    rewrite (replay_members max_products _ ∅
               (reads_selectors_chained w p max_products link_selectors ∅) h).
    split.
    - intros [H | (links & Hin & Hk)].
      + apply elem_of_empty in H. contradiction.
      + exists links. split; [exact Hin | apply keep_spec, Hk].
    - intros (links & Hin & Hk). right. exists links.
      split; [exact Hin | apply keep_spec, Hk]. }
  split; [| split; [| split; [| split]]].
  - intros product_links h Hin.
    split; [exact (reads_selectors_sound w p max_products link_selectors ∅ _ _ Hin) |].
    assert (Hr : readable max_products product_links).
    { pose proof (reads_selectors_readable w p max_products link_selectors ∅
                    (empty_readable _)) as HF.
      rewrite List.Forall_forall in HF.
      apply (HF (product_links, h)), list_elem_of_In, Hin. }
    pose proof (keep_spec h product_links max_products) as Hk.
    destruct (keep h product_links max_products) eqn:E.
    + rewrite (visit_kept _ _ _ E).
      split; [| split].
      * split; [intros _; apply (proj1 Hk); reflexivity |].
        intros _. apply elem_of_union. left. apply elem_of_singleton. reflexivity.
      * reflexivity.
      * intros Hn. exfalso. apply Hn. apply (proj1 Hk). reflexivity.
    + rewrite (visit_dropped _ _ _ E).
      assert (Hn : ~ (category_matching h \/ below_cap product_links max_products)).
      { intros Hc. apply (proj2 Hk) in Hc. discriminate. }
      split; [| split].
      * split; [| intros Hc; exfalso; exact (Hn Hc)].
        intros Hm. exfalso.
        destruct Hr as [Hb | ->]; [apply Hn; right; exact Hb | set_solver].
      * intros Hc. exfalso. exact (Hn Hc).
      * reflexivity.
  - apply reads_selectors_chained.
  - apply reads_selectors_faithful.
  - exact Hmem.
  - intros s l Hp Hl. apply extract_product_links_result in Hl.
    rewrite Hp in Hl. fold result in Hl. split; [exact Hl |].
    intros Hmax h. rewrite <- Hmem.
    assert (Hcap : Z.of_nat (size result) <= max_products).
    { apply scan_selectors_cap. rewrite size_empty. lia. }
    rewrite slice_to_all in Hl by (rewrite size_elements; exact Hcap).
    subst l. apply elem_of_elements.
Qed.

Lemma link_added_iff_witness :
  ((∅, Some Fixture.serum)
   ∈ reads_selectors Fixture.twice Blank 2 ∅ link_selectors
   /\ (exists selector elems,
         selector ∈ link_selectors
         /\ find_elements Fixture.twice Blank selector = Ok elems
         /\ Ok (Some Fixture.serum) ∈ elems)
   /\ (Some Fixture.serum ∈ (visit 2 ∅ (Some Fixture.serum)).1
       <-> category_matching (Some Fixture.serum) \/ below_cap ∅ 2)
   /\ (category_matching (Some Fixture.serum) \/ below_cap ∅ 2 ->
       (visit 2 ∅ (Some Fixture.serum)).1 = {[ Some Fixture.serum ]} ∪ ∅)
   /\ (~ (category_matching (Some Fixture.serum) \/ below_cap ∅ 2) ->
       (visit 2 ∅ (Some Fixture.serum)).1 = ∅))
  /\ (current (driver init) = Blank
      /\ (extract_product_links Fixture.twice 2 init).1
         = Ok [Some Fixture.serum; Some Fixture.toner]
      /\ 1 <= 2
      /\ [Some Fixture.serum; Some Fixture.toner]
         = slice_to
             (elements (scan_selectors Fixture.twice Blank 2 ∅ link_selectors)) 2
      /\ forall h,
           h ∈ [Some Fixture.serum; Some Fixture.toner]
           <-> exists product_links,
                 (product_links, h)
                 ∈ reads_selectors Fixture.twice Blank 2 ∅ link_selectors
                 /\ (category_matching h \/ below_cap product_links 2)).
Proof.
  assert (Hin : (∅, Some Fixture.serum)
                ∈ reads_selectors Fixture.twice Blank 2 ∅ link_selectors)
    by (apply list_elem_of_In; vm_compute; left; reflexivity).
  assert (Hl : (extract_product_links Fixture.twice 2 init).1
               = Ok [Some Fixture.serum; Some Fixture.toner])
    by (vm_compute; reflexivity).
  assert (H12 : 1 <= 2) by (intros H; discriminate H).
  destruct (link_added_iff Fixture.twice Blank 2) as (Hreads & _ & _ & _ & Hex).
  split.
  - split; [exact Hin |]. exact (Hreads ∅ (Some Fixture.serum) Hin).
  - split; [reflexivity |]. split; [exact Hl |]. split; [exact H12 |].
    destruct (Hex init _ eq_refl Hl) as [Hslice Hall].
    split; [exact Hslice | exact (Hall H12)].
Defined.

(** C2 does not hold of the code: a run stores the [og:image] fallback as
    the tag gives it.  On a site whose only product page has no image a
    candidate finds and an [og:image] of [//cdn.qudobeauty.com/balm.png],
    the record appended to the output holds that scheme-relative URL. *)
Theorem og_image_stored_as_given :
  products (scrape_products Fixture.relative_og_image 30 init).2
  = [Fixture.balm_record]
  /\ product_data.image_url Fixture.balm_record
     = Some "//cdn.qudobeauty.com/balm.png"
  /\ relative_url "//cdn.qudobeauty.com/balm.png"
  /\ ensure_full_url "//cdn.qudobeauty.com/balm.png"
     = "https://cdn.qudobeauty.com/balm.png".
Proof.
  split; [vm_compute; reflexivity |]. split; [reflexivity |].
  split; reflexivity.
Qed.

(** C3, as the code has it.  [scrape_product_page] never raises, and gives
    a record when the page loads and no lookup fails otherwise than by
    missing its element.  In every record it gives: each of name,
    category, ingredients and size is the trimmed text of the first
    candidate, in the order of the field, whose lookup succeeds with a
    text that is not empty once trimmed; the image URL is the [src] of the
    first candidate whose lookup succeeds with a [src] that is not empty,
    untrimmed, made a full URL; no later candidate is returned when an
    earlier one matches.  When no candidate matches, category, ingredients
    and size hold no text, and name and image URL are what the [og:title]
    and [og:image] tags hold, absent when the tag is. *)
Theorem first_candidate_wins (w : World) (url : href) (s : QudobeautyScraper) :
  (exists o, (scrape_product_page w url s).1 = Ok o)
  /\ (page_loads w url -> benign (find_element w (Page url)) ->
      exists r, (scrape_product_page w url s).1 = Ok (Some r))
  /\ (forall r, (scrape_product_page w url s).1 = Ok (Some r) ->
      let pg := find_element w (Page url) in
      match first_of (text_of pg) name_selectors with
      | Some v => product_data.product_name r = Some v
      | None => product_data.product_name r
                = meta_content pg "meta[property='og:title']"
      end
      /\ match first_of (text_of pg) category_selectors with
         | Some v => product_data.category r = Some v
         | None => no_text (product_data.category r)
         end
      /\ match first_of (text_of pg) ingredient_selectors with
         | Some v => product_data.ingredients r = Some v
         | None => no_text (product_data.ingredients r)
         end
      /\ match first_of (text_of pg) size_selectors with
         | Some v => product_data.size r = Some v
         | None => no_text (product_data.size r)
         end
      /\ match first_of (attribute_of "src" pg) image_selectors with
         | Some u => product_data.image_url r = Some (ensure_full_url u)
         | None => product_data.image_url r
                   = meta_content pg "meta[property='og:image']"
         end).
Proof.
  split; [apply scrape_product_page_returns |].
  split; [apply scrape_product_page_returns_record |].
  intros r Hr pg.
  apply scrape_product_page_some in Hr as [s' Hr].
  apply scrape_product_page_try_fields in Hr.
  destruct Hr as (Hname & Hcat & Hing & Hsz & Himg & _).
  fold pg in Hname, Hcat, Hing, Hsz, Himg.
  split; [exact Hname |].
  split; [destruct (first_of (text_of pg) category_selectors);
          [exact Hcat | apply falsy_no_text, Hcat] |].
  split; [destruct (first_of (text_of pg) ingredient_selectors);
          [exact Hing | apply falsy_no_text, Hing] |].
  split; [destruct (first_of (text_of pg) size_selectors);
          [exact Hsz | apply falsy_no_text, Hsz] |].
  exact Himg.
Qed.

Lemma first_candidate_wins_witness :
  page_loads Fixture.three_pages (Some Fixture.serum)
  /\ benign (find_element Fixture.three_pages (Page (Some Fixture.serum)))
  /\ (exists r,
        (scrape_product_page Fixture.three_pages (Some Fixture.serum) init).1
        = Ok (Some r))
  /\ (scrape_product_page Fixture.three_pages (Some Fixture.serum) init).1
     = Ok (Some Fixture.serum_record)
  /\ product_data.product_name Fixture.serum_record = Some "Rose Serum"
  /\ product_data.category Fixture.serum_record = Some "Serums"
  /\ product_data.ingredients Fixture.serum_record = Some "Aqua, Rosa Damascena"
  /\ product_data.size Fixture.serum_record = Some "30 ml"
  /\ product_data.image_url Fixture.serum_record
     = Some (ensure_full_url "//cdn.qudobeauty.com/serum.png").
Proof.
  assert (Hl : page_loads Fixture.three_pages (Some Fixture.serum))
    by (split; [reflexivity | left; reflexivity]).
  assert (Hb : benign (find_element Fixture.three_pages (Page (Some Fixture.serum))))
    by exact (page_of_benign _).
  assert (Hr : (scrape_product_page Fixture.three_pages (Some Fixture.serum) init).1
               = Ok (Some Fixture.serum_record))
    by (vm_compute; reflexivity).
  split; [exact Hl |]. split; [exact Hb |].
  split; [exact (proj1 (proj2 (first_candidate_wins Fixture.three_pages
                                 (Some Fixture.serum) init)) Hl Hb) |].
  split; [exact Hr |].
  exact (proj2 (proj2 (first_candidate_wins Fixture.three_pages
                         (Some Fixture.serum) init))
           Fixture.serum_record Hr).
Defined.

(** C3, as the specification states it, fails: on a page whose first image
    candidate has a blank [src] and whose second has a URL, the record
    holds the blank [src], not the URL. *)
Lemma first_candidate_wins_counterexample :
  (scrape_product_page Fixture.blank_src (Some Fixture.serum) init).1
  = Ok (Some Fixture.blank_src_record)
  /\ ~ claimed_fields (find_element Fixture.blank_src (Page (Some Fixture.serum)))
         Fixture.blank_src_record.
Proof.
  split; [vm_compute; reflexivity |].
  intros (_ & _ & _ & _ & H). vm_compute in H. discriminate.
Qed.

(** C4. The image URL a locator candidate yields is stored with [https:]
    before it when it starts with [//], else with the base URL before it
    when it starts with [/], and as it is otherwise. *)
Theorem image_url_made_full (w : World) (url : href) (s : QudobeautyScraper)
    (r : ProductRecord) (u : string) :
  (scrape_product_page w url s).1 = Ok (Some r) ->
  first_of (attribute_of "src" (find_element w (Page url))) image_selectors
  = Some u ->
  product_data.image_url r
  = Some (if PyStr.startswith u "//" then "https:" ++ u
          else if PyStr.startswith u "/" then base_url ++ u
          else u).
Proof.
  intros Hr Hu.
  apply scrape_product_page_some in Hr as [s' Hr].
  apply scrape_product_page_try_fields in Hr.
  destruct Hr as (_ & _ & _ & _ & Himg & _).
  rewrite Hu in Himg. exact Himg.
Qed.

Lemma image_url_made_full_witness :
  (scrape_product_page Fixture.three_pages (Some Fixture.serum) init).1
  = Ok (Some Fixture.serum_record)
  /\ first_of
       (attribute_of "src"
          (find_element Fixture.three_pages (Page (Some Fixture.serum))))
       image_selectors
     = Some "//cdn.qudobeauty.com/serum.png"
  /\ product_data.image_url Fixture.serum_record
     = Some "https://cdn.qudobeauty.com/serum.png".
Proof.
  split; [vm_compute; reflexivity |]. split; [vm_compute; reflexivity |].
  apply (image_url_made_full Fixture.three_pages (Some Fixture.serum) init
           Fixture.serum_record "//cdn.qudobeauty.com/serum.png");
    vm_compute; reflexivity.
Defined.

(** C5. A run appends a scraped record to the output collection only if
    its [product_name] is a non-empty string: the collection after the run
    is the collection before it followed by records that all have a name,
    so a record whose name is empty or absent is never in the output,
    whatever its other fields hold. *)
Theorem only_named_records_kept (w : World) (max_products : Z)
    (s : QudobeautyScraper) :
  (exists new,
     products (scrape_products w max_products s).2 = (products s ++ new)%list
     /\ Forall named new)
  /\ Forall named (products (scrape_products w max_products init).2).
Proof.
  assert (H : steps grows_named (scrape_products w max_products)).
  { unfold scrape_products.
    apply (steps_try_finally _ grows_named_trans).
    - apply steps_scrape_products_guarded.
      + apply grows_named_refl.
      + apply grows_named_trans.
      + apply calm_grows_named.
      + apply grows_named_scrape_links.
    - apply grows_named_send. }
  split; [apply H |].
  destruct (H init) as (new & E & Hnew). rewrite E. exact Hnew.
Qed.

(** C6. Whatever hrefs the locator candidates of the Link Collector find,
    also when two candidates find the same href, the list
    [extract_product_links] returns holds each href at most once and is no
    longer than the maximum count; and it does return a list when the
    scroll scripts run. *)
Theorem links_unique_and_capped (w : World) (max_products : Z)
    (s : QudobeautyScraper) :
  0 <= max_products ->
  (scripts_run w (current (driver s)) ->
   exists l, (extract_product_links w max_products s).1 = Ok l)
  /\ (forall l, (extract_product_links w max_products s).1 = Ok l ->
      NoDup l /\ Z.of_nat (List.length l) <= max_products).
Proof.
  intros Hmax. split; [apply extract_product_links_returns |].
  intros l H.
  destruct (extract_product_links w max_products s) as [r s'] eqn:E.
  simpl in H. subst r.
  rewrite (extract_product_links_ok _ _ _ _ _ E). split.
  - apply slice_to_NoDup, NoDup_elements.
  - apply slice_to_length, Hmax.
Qed.

Lemma links_unique_and_capped_witness :
  0 <= 2
  /\ scripts_run Fixture.twice (current (driver init))
  /\ (exists l, (extract_product_links Fixture.twice 2 init).1 = Ok l)
  /\ (extract_product_links Fixture.twice 2 init).1
     = Ok [Some Fixture.serum; Some Fixture.toner]
  /\ NoDup [Some Fixture.serum; Some Fixture.toner]
  /\ Z.of_nat (List.length [Some Fixture.serum; Some Fixture.toner]) <= 2.
Proof.
  assert (Hs : scripts_run Fixture.twice (current (driver init)))
    by (split; [reflexivity | intros k; eexists; reflexivity]).
  split; [exact Z.le_0_2 |]. split; [exact Hs |].
  split; [exact (proj1 (links_unique_and_capped Fixture.twice 2 init Z.le_0_2) Hs) |].
  split; [vm_compute; reflexivity |].
  apply (proj2 (links_unique_and_capped Fixture.twice 2 init Z.le_0_2)).
  vm_compute. reflexivity.
Defined.

(** C7. The Navigator tries its candidates in their fixed order, each with
    a wait of 5 for the element to become clickable.  At the first
    candidate that becomes clickable it clicks, waits for the page load
    and returns [True]; the candidates after it are not tried.  When
    every candidate times out it returns [False]; it does not raise. *)
Theorem navigator_first_clickable (w : World) (s : QudobeautyScraper) :
  (forall (pre post : list string) (selector : string),
     home_loads w ->
     skincare_selectors = (pre ++ selector :: post)%list ->
     Forall (times_out w Home) pre ->
     clicks_through w Home selector ->
     navigate_to_skincare w s
     = (Ok true,
        after s
          ([CGet (Some base_url); CWaitReady 15] ++ waits pre
           ++ [CWaitClickable selector 5; CClick selector; CWaitReady 15])
          (Clicked Home selector)))
  /\ (home_loads w ->
      Forall (times_out w Home) skincare_selectors ->
      navigate_to_skincare w s
      = (Ok false,
         after s
           ([CGet (Some base_url); CWaitReady 15] ++ waits skincare_selectors)
           Home)).
Proof.
  split.
  - intros pre post selector Hh Hsel Hpre Hclick.
    rewrite (navigate_to_skincare_home w s Hh), Hsel. unfold try_except.
    rewrite try_skincare_selectors_all_time_out by exact Hpre.
    rewrite try_skincare_selectors_clicks by exact Hclick.
    simpl. rewrite !after_after. reflexivity.
  - intros Hh Hall.
    rewrite (navigate_to_skincare_home w s Hh). unfold try_except.
    rewrite <- (app_nil_r skincare_selectors) at 1.
    rewrite try_skincare_selectors_all_time_out by exact Hall.
    simpl. rewrite !after_after. reflexivity.
Qed.

Lemma navigator_first_clickable_witness :
  (home_loads Fixture.href_link
   /\ skincare_selectors
      = ([ "//a[contains(text(), 'Skincare')]";
           "//a[contains(text(), 'SKINCARE')]" ]
         ++ "//a[contains(@href, 'skincare')]"
         :: [ "//nav//a[contains(text(), 'Skin')]" ])%list
   /\ Forall (times_out Fixture.href_link Home)
        [ "//a[contains(text(), 'Skincare')]";
          "//a[contains(text(), 'SKINCARE')]" ]
   /\ clicks_through Fixture.href_link Home "//a[contains(@href, 'skincare')]"
   /\ navigate_to_skincare Fixture.href_link init
      = (Ok true,
         after init
           ([CGet (Some base_url); CWaitReady 15]
            ++ waits [ "//a[contains(text(), 'Skincare')]";
                       "//a[contains(text(), 'SKINCARE')]" ]
            ++ [ CWaitClickable "//a[contains(@href, 'skincare')]" 5;
                 CClick "//a[contains(@href, 'skincare')]";
                 CWaitReady 15 ])
           (Clicked Home "//a[contains(@href, 'skincare')]")))
  /\ (home_loads Fixture.bare
      /\ Forall (times_out Fixture.bare Home) skincare_selectors
      /\ navigate_to_skincare Fixture.bare init
         = (Ok false,
            after init
              ([CGet (Some base_url); CWaitReady 15] ++ waits skincare_selectors)
              Home)).
Proof.
  assert (H1 : home_loads Fixture.href_link)
    by (split; [reflexivity | left; reflexivity]).
  assert (H2 : Forall (times_out Fixture.href_link Home)
                 [ "//a[contains(text(), 'Skincare')]";
                   "//a[contains(text(), 'SKINCARE')]" ])
    by (repeat (apply List.Forall_cons; [reflexivity |]); apply List.Forall_nil).
  assert (H3 : clicks_through Fixture.href_link Home
                 "//a[contains(@href, 'skincare')]")
    by (split; [reflexivity | left; reflexivity]).
  assert (H4 : home_loads Fixture.bare)
    by (split; [reflexivity | left; reflexivity]).
  assert (H5 : Forall (times_out Fixture.bare Home) skincare_selectors)
    by (repeat (apply List.Forall_cons; [reflexivity |]); apply List.Forall_nil).
  split.
  - split; [exact H1 |]. split; [reflexivity |]. split; [exact H2 |].
    split; [exact H3 |].
    exact (proj1 (navigator_first_clickable Fixture.href_link init)
             [ "//a[contains(text(), 'Skincare')]";
               "//a[contains(text(), 'SKINCARE')]" ]
             [ "//nav//a[contains(text(), 'Skin')]" ]
             "//a[contains(@href, 'skincare')]"
             H1 eq_refl H2 H3).
  - split; [exact H4 |]. split; [exact H5 |].
    exact (proj2 (navigator_first_clickable Fixture.bare init) H4 H5).
Defined.



(** C9. On every way out of the main scrape loop, by completion or by an
    exception, [scrape_products] releases the driver exactly once and
    then returns, so that control goes on to the export: the run sends
    one [quit], after every other command, and never ends with the driver
    still held. *)
Theorem driver_released_once (w : World) (max_products : Z)
    (s : QudobeautyScraper) :
  (scrape_products w max_products s).1 = Ok tt
  /\ (exists cmds,
        log (driver (scrape_products w max_products s).2)
        = (log (driver s) ++ cmds ++ [CQuit])%list
        /\ CQuit ∉ cmds)
  /\ quits (scrape_products w max_products s).2 = S (quits s).
Proof.
  pose proof (scrape_products_guarded_returns w max_products s) as Hret.
  assert (Hlog : no_quit s (scrape_products_guarded w max_products s).2).
  { apply steps_scrape_products_guarded.
    - apply no_quit_refl.
    - apply no_quit_trans.
    - apply calm_no_quit.
    - apply no_quit_scrape_links. }
  unfold scrape_products, try_finally.
  destruct (scrape_products_guarded w max_products s) as [r s1].
  simpl in Hret. subst r. destruct Hlog as (cmds & E & Hn).
  simpl in E |- *.
  split; [reflexivity |]. split.
  - exists cmds. rewrite E. split; [symmetry; apply app_assoc | exact Hn].
  - unfold quits. simpl. rewrite E, !filter_quit_app, (filter_quit_none _ Hn).
    rewrite !length_app. simpl. lia.
Qed.

(** C10. There is a listing page with an anchor whose href is absent, read
    while the set is below the maximum count, on which the inclusion
    condition accepts the absent value, adds it to the set, and the list
    of product links that is returned holds [None]. *)
Theorem absent_href_collected :
  (∅, None) ∈ reads_selectors Fixture.anchor_without_href Home 30 ∅ link_selectors
  /\ keep None ∅ 30 = true
  /\ None ∈ (visit 30 ∅ None).1
  /\ (extract_product_links Fixture.anchor_without_href 30 init).1 = Ok [None].
Proof.
  split; [apply list_elem_of_In; vm_compute; left; reflexivity |].
  split; [reflexivity |].
  split; [rewrite visit_kept by reflexivity; set_solver |].
  vm_compute. reflexivity.
Qed.

(** * Further properties of the code *)

(** ** Trimming *)

Lemma rstrip_rstrip s : PyStr.rstrip (PyStr.rstrip s) = PyStr.rstrip s.
Proof.
  induction s as [| c s IH]; simpl; [reflexivity |].
  destruct (PyStr.rstrip s) as [| c' r] eqn:E.
  - destruct (PyStr.isspace c) eqn:Ec; simpl; [reflexivity |].
    rewrite Ec. reflexivity.
  - simpl in IH |- *. destruct (PyStr.rstrip r) as [| c'' r'] eqn:E'.
    + destruct (PyStr.isspace c'); [discriminate |]. rewrite IH. reflexivity.
    + rewrite IH. reflexivity.
Qed.

(** A string that does not start with whitespace. *)
Lemma lstrip_head s :
  match PyStr.lstrip s with
  | EmptyString => True
  | String c _ => PyStr.isspace c = false
  end.
Proof.
  induction s as [| c s IH]; simpl; [exact I |].
  destruct (PyStr.isspace c) eqn:E; [exact IH | exact E].
Qed.

Lemma rstrip_head c s :
  PyStr.isspace c = false ->
  exists r, PyStr.rstrip (String c s) = String c r.
Proof.
  intros E. simpl. destruct (PyStr.rstrip s) as [| c' r].
  - rewrite E. eauto.
  - eauto.
Qed.

Lemma strip_strip s : PyStr.strip (PyStr.strip s) = PyStr.strip s.
Proof.
  unfold PyStr.strip. pose proof (lstrip_head s) as H.
  destruct (PyStr.lstrip s) as [| c t]; [reflexivity |].
  destruct (rstrip_head c t H) as [r Hr]. rewrite Hr.
  change (PyStr.lstrip (String c r)) with
    (if PyStr.isspace c then PyStr.lstrip r else String c r).
  rewrite H, <- Hr. apply rstrip_rstrip.
Qed.

Lemma trimmed_strip s : trimmed (PyStr.strip s).
Proof. apply strip_strip. Qed.

Lemma trimmed_empty : trimmed "".
Proof. reflexivity. Qed.

Lemma falsy_absent_or_trimmed v :
  PyStr.truthy v = false -> absent_or_trimmed v.
Proof.
  intros H t ->. destruct t; [apply trimmed_empty | discriminate].
Qed.

(** What a text candidate yields is trimmed. *)
Lemma text_of_trimmed pg c t : text_of pg c = Some t -> trimmed t.
Proof.
  unfold text_of. destruct (pg c.1 c.2) as [e|e]; [| discriminate].
  destruct (PyStr.nonempty _); [| discriminate].
  intros [= <-]. apply trimmed_strip.
Qed.

Lemma first_of_text_trimmed pg cs : forall t,
  first_of (text_of pg) cs = Some t -> trimmed t.
Proof.
  induction cs as [| c cs IH]; intros t; simpl; [discriminate |].
  destruct (text_of pg c) as [v|] eqn:E; [| apply IH].
  intros [= <-]. eapply text_of_trimmed, E.
Qed.

(** ** The helpers of the driver *)

Lemma wait_for_page_load_run (w : World) (timeout : Z) (s : QudobeautyScraper) :
  _wait_for_page_load w timeout s
  = (match ready_state w (current (driver s)) with
     | Ok _ => Ok tt
     | Raise TimeoutException => Ok tt
     | Raise e => Raise e
     end,
     after s [CWaitReady timeout] (current (driver s))).
Proof.
  unfold _wait_for_page_load, wait_ready, try_except, bind, send, here, lift.
  simpl. destruct (ready_state w (current (driver s))) as [[]|[]]; reflexivity.
Qed.

(** [_wait_for_page_load] sends one wait with its timeout and returns,
    whether the document gets ready or the wait times out; an exception
    that is not a timeout goes through as it is.  The place of the browser
    and the products stay as they are. *)
Theorem wait_for_page_load_outcome (w : World) (timeout : Z)
    (s : QudobeautyScraper) :
  _wait_for_page_load w timeout s
  = (match ready_state w (current (driver s)) with
     | Ok _ => Ok tt
     | Raise TimeoutException => Ok tt
     | Raise e => Raise e
     end,
     after s [CWaitReady timeout] (current (driver s))).
Proof.
  unfold _wait_for_page_load, wait_ready, try_except, bind, send, here, lift.
  simpl. destruct (ready_state w (current (driver s))) as [[]|[]]; reflexivity.
Qed.

(** [_safe_find_element] and [_safe_get_attribute] leave the scraper as it
    is and never raise [NoSuchElementException]: an element that is not
    found gives [None].  The text [_safe_find_element] returns is trimmed. *)
Theorem safe_lookups_contained (w : World) (by_ : By) (value attribute : string)
    (s : QudobeautyScraper) :
  ((_safe_find_element w by_ value s).2 = s
   /\ (_safe_find_element w by_ value s).1 <> Raise NoSuchElementException
   /\ (forall t, (_safe_find_element w by_ value s).1 = Ok (Some t) -> trimmed t))
  /\ ((_safe_get_attribute w by_ value attribute s).2 = s
      /\ (_safe_get_attribute w by_ value attribute s).1
         <> Raise NoSuchElementException)
  /\ (find_element w (current (driver s)) by_ value = Raise NoSuchElementException ->
      (_safe_find_element w by_ value s).1 = Ok None
      /\ (_safe_get_attribute w by_ value attribute s).1 = Ok None).
Proof.
  rewrite safe_find_element_run, safe_get_attribute_run. simpl.
  destruct (find_element w (current (driver s)) by_ value) as [e|[]];
    repeat split; try discriminate; try reflexivity.
  intros t. destruct (PyStr.nonempty (text e)); [| discriminate].
  intros [= <-]. apply trimmed_strip.
Qed.

Lemma safe_lookups_contained_witness :
  (find_element Fixture.bare (current (driver init)) TAG_NAME "h1"
   = Raise NoSuchElementException
   /\ (_safe_find_element Fixture.bare TAG_NAME "h1" init).1 = Ok None
   /\ (_safe_get_attribute Fixture.bare TAG_NAME "h1" "src" init).1 = Ok None)
  /\ ((_safe_find_element Fixture.three_pages CSS_SELECTOR "h1.product-title"
         (after init [] (Page (Some Fixture.serum)))).1
      = Ok (Some "Rose Serum")
      /\ trimmed "Rose Serum").
Proof.
  split.
  - split; [reflexivity |].
    exact (proj2 (proj2 (safe_lookups_contained Fixture.bare TAG_NAME "h1" "src"
                           init)) eq_refl).
  - assert (H : (_safe_find_element Fixture.three_pages CSS_SELECTOR
                   "h1.product-title"
                   (after init [] (Page (Some Fixture.serum)))).1
                = Ok (Some "Rose Serum")) by (vm_compute; reflexivity).
    split; [exact H |].
    exact (proj2 (proj2 (proj1 (safe_lookups_contained Fixture.three_pages
                                  CSS_SELECTOR "h1.product-title" "src"
                                  (after init [] (Page (Some Fixture.serum))))))
             "Rose Serum" H).
Defined.

(** ** The records of [scrape_product_page] *)

Lemma ensure_full_url_not_relative u :
  PyStr.startswith (ensure_full_url u) "/" = false.
Proof.
  unfold ensure_full_url.
  destruct (PyStr.startswith u "//") eqn:E2; [reflexivity |].
  destruct (PyStr.startswith u "/") eqn:E1; [reflexivity | exact E1].
Qed.

Lemma not_relative_fixed u :
  PyStr.startswith u "/" = false -> ensure_full_url u = u.
Proof.
  intros H. unfold ensure_full_url. rewrite H.
  destruct u as [| c u]; [reflexivity |].
  destruct (PyStr.startswith (String c u) "//") eqn:E; [| reflexivity].
  unfold PyStr.startswith in *. cbn [String.prefix] in *.
  destruct (Ascii.ascii_dec "/" c); [| discriminate].
  destruct u; discriminate.
Qed.

(** In every record [scrape_product_page] gives, the product URL is the
    URL it was given, the brand is Qudo Beauty, and each of category,
    ingredients and size is absent or holds trimmed text. *)
Theorem record_fields_well_formed (w : World) (url : href)
    (s : QudobeautyScraper) (r : ProductRecord) :
  (scrape_product_page w url s).1 = Ok (Some r) ->
  product_data.product_url r = url
  /\ product_data.brand r = "Qudo Beauty"
  /\ absent_or_trimmed (product_data.category r)
  /\ absent_or_trimmed (product_data.ingredients r)
  /\ absent_or_trimmed (product_data.size r).
Proof.
  intros Hr. apply scrape_product_page_some in Hr as [s' Hr].
  apply scrape_product_page_try_fields in Hr.
  destruct Hr as (_ & Hcat & Hing & Hsz & _ & Hurl & Hbrand).
  split; [exact Hurl |]. split; [exact Hbrand |].
  set (pg := find_element w (Page url)) in *.
  split; [| split].
  - destruct (first_of (text_of pg) category_selectors) eqn:E.
    + intros t Ht. rewrite Hcat in Ht. injection Ht as <-.
      eapply first_of_text_trimmed, E.
    + apply falsy_absent_or_trimmed, Hcat.
  - destruct (first_of (text_of pg) ingredient_selectors) eqn:E.
    + intros t Ht. rewrite Hing in Ht. injection Ht as <-.
      eapply first_of_text_trimmed, E.
    + apply falsy_absent_or_trimmed, Hing.
  - destruct (first_of (text_of pg) size_selectors) eqn:E.
    + intros t Ht. rewrite Hsz in Ht. injection Ht as <-.
      eapply first_of_text_trimmed, E.
    + apply falsy_absent_or_trimmed, Hsz.
Qed.

Lemma record_fields_well_formed_witness :
  (scrape_product_page Fixture.three_pages (Some Fixture.serum) init).1
  = Ok (Some Fixture.serum_record)
  /\ product_data.product_url Fixture.serum_record = Some Fixture.serum
  /\ product_data.brand Fixture.serum_record = "Qudo Beauty"
  /\ absent_or_trimmed (product_data.category Fixture.serum_record)
  /\ absent_or_trimmed (product_data.ingredients Fixture.serum_record)
  /\ absent_or_trimmed (product_data.size Fixture.serum_record).
Proof.
  split; [vm_compute; reflexivity |].
  apply (record_fields_well_formed Fixture.three_pages (Some Fixture.serum) init).
  vm_compute. reflexivity.
Defined.

(** When an image candidate yields a URL, the image URL of the record is
    not relative: it does not start with a slash, and making it full
    again changes nothing. *)
Theorem locator_image_is_full (w : World) (url : href) (s : QudobeautyScraper)
    (r : ProductRecord) (u : string) :
  (scrape_product_page w url s).1 = Ok (Some r) ->
  first_of (attribute_of "src" (find_element w (Page url))) image_selectors
  = Some u ->
  exists v, product_data.image_url r = Some v
            /\ ~ relative_url v
            /\ ensure_full_url v = v.
Proof.
  intros Hr Hu. apply scrape_product_page_some in Hr as [s' Hr].
  apply scrape_product_page_try_fields in Hr.
  destruct Hr as (_ & _ & _ & _ & Himg & _).
  rewrite Hu in Himg. exists (ensure_full_url u).
  split; [exact Himg |]. unfold relative_url.
  pose proof (ensure_full_url_not_relative u) as H.
  split; [rewrite H; discriminate | apply not_relative_fixed, H].
Qed.

Lemma locator_image_is_full_witness :
  (scrape_product_page Fixture.three_pages (Some Fixture.serum) init).1
  = Ok (Some Fixture.serum_record)
  /\ first_of
       (attribute_of "src"
          (find_element Fixture.three_pages (Page (Some Fixture.serum))))
       image_selectors
     = Some "//cdn.qudobeauty.com/serum.png"
  /\ exists v, product_data.image_url Fixture.serum_record = Some v
               /\ ~ relative_url v
               /\ ensure_full_url v = v.
Proof.
  split; [vm_compute; reflexivity |]. split; [vm_compute; reflexivity |].
  apply (locator_image_is_full Fixture.three_pages (Some Fixture.serum) init
           Fixture.serum_record "//cdn.qudobeauty.com/serum.png");
    vm_compute; reflexivity.
Defined.

(** ** The Navigator, when a candidate fails *)
Section NavigatorFailures.

Variable w : World.

Lemma try_skincare_selectors_passed_over x rest s cmds :
  passed_over w (current (driver s)) x cmds ->
  try_skincare_selectors w (x :: rest) s
  = try_skincare_selectors w rest (after s cmds (current (driver s))).
Proof.
  intros [[H ->] | [H ->]]; simpl;
    unfold try_except at 1, bind at 1, wait_clickable, bind, send, here, lift;
    simpl; rewrite H; [reflexivity |].
  unfold click, bind, send, lift. simpl. unfold after. simpl.
  rewrite <- app_assoc. reflexivity.
Qed.

Lemma try_skincare_selectors_gives_up x rest s cmds :
  gives_up w (current (driver s)) x cmds ->
  exists e, try_skincare_selectors w (x :: rest) s
            = (Raise e, after s cmds (current (driver s))).
Proof.
  intros [(e & He & H & ->) | (e & He & H & ->)]; exists e; simpl;
    unfold try_except at 1, bind at 1, wait_clickable, bind, send, here, lift;
    simpl; rewrite H.
  - destruct e; [contradiction | reflexivity | reflexivity].
  - unfold click, bind, send, lift. simpl. unfold after. simpl.
    rewrite <- app_assoc.
    destruct e; [contradiction | reflexivity | reflexivity].
Qed.

Lemma try_skincare_selectors_all_passed_over pre : forall cmdss rest s,
  Forall2 (passed_over w (current (driver s))) pre cmdss ->
  try_skincare_selectors w (pre ++ rest) s
  = try_skincare_selectors w rest
      (after s (List.concat cmdss) (current (driver s))).
Proof.
  induction pre as [| x pre IH]; intros cmdss rest s H.
  - apply Forall2_nil_inv_l in H as ->. simpl. rewrite after_nil. reflexivity.
  - apply Forall2_cons_inv_l in H as (cmds & cmdss' & Hx & H & ->).
    rewrite <- app_comm_cons, (try_skincare_selectors_passed_over _ _ _ _ Hx).
    rewrite (IH cmdss') by exact H. simpl. rewrite after_after. reflexivity.
Qed.

End NavigatorFailures.

(** When the wait for a candidate, or its click, raises something else
    than a timeout, after the candidates before it were passed over,
    [navigate_to_skincare] returns [False] there: it sends nothing more
    and tries no later candidate. *)
Theorem navigator_gives_up (w : World) (s : QudobeautyScraper)
    (pre post : list string) (selector : string)
    (cmdss : list (list command)) (cmds : list command) :
  home_loads w ->
  skincare_selectors = (pre ++ selector :: post)%list ->
  Forall2 (passed_over w Home) pre cmdss ->
  gives_up w Home selector cmds ->
  navigate_to_skincare w s
  = (Ok false,
     after s ([CGet (Some base_url); CWaitReady 15] ++ List.concat cmdss ++ cmds) Home).
Proof.
  intros Hh Hsel Hpre Hg.
  rewrite (navigate_to_skincare_home w s Hh), Hsel. unfold try_except.
  rewrite (try_skincare_selectors_all_passed_over w pre cmdss) by exact Hpre.
  match goal with
  | |- context [try_skincare_selectors w _ ?t] =>
      destruct (try_skincare_selectors_gives_up w selector post t cmds Hg) as [e He]
  end.
  rewrite He. simpl. unfold ret. rewrite !after_after. reflexivity.
Qed.

Lemma navigator_gives_up_witness :
  home_loads Site.intercepted
  /\ skincare_selectors
     = ([ "//a[contains(text(), 'Skincare')]" ]
        ++ "//a[contains(text(), 'SKINCARE')]"
        :: [ "//a[contains(@href, 'skincare')]";
             "//nav//a[contains(text(), 'Skin')]" ])%list
  /\ Forall2 (passed_over Site.intercepted Home)
       [ "//a[contains(text(), 'Skincare')]" ]
       [ [CWaitClickable "//a[contains(text(), 'Skincare')]" 5] ]
  /\ gives_up Site.intercepted Home "//a[contains(text(), 'SKINCARE')]"
       [ CWaitClickable "//a[contains(text(), 'SKINCARE')]" 5;
         CClick "//a[contains(text(), 'SKINCARE')]" ]
  /\ navigate_to_skincare Site.intercepted init
     = (Ok false,
        after init
          [ CGet (Some base_url); CWaitReady 15;
            CWaitClickable "//a[contains(text(), 'Skincare')]" 5;
            CWaitClickable "//a[contains(text(), 'SKINCARE')]" 5;
            CClick "//a[contains(text(), 'SKINCARE')]" ]
          Home).
Proof.
  assert (H1 : home_loads Site.intercepted)
    by (split; [reflexivity | left; reflexivity]).
  assert (H2 : Forall2 (passed_over Site.intercepted Home)
                 [ "//a[contains(text(), 'Skincare')]" ]
                 [ [CWaitClickable "//a[contains(text(), 'Skincare')]" 5] ])
    by (apply List.Forall2_cons; [left; split; reflexivity | apply List.Forall2_nil]).
  assert (H3 : gives_up Site.intercepted Home "//a[contains(text(), 'SKINCARE')]"
                 [ CWaitClickable "//a[contains(text(), 'SKINCARE')]" 5;
                   CClick "//a[contains(text(), 'SKINCARE')]" ]).
  { right. exists WebDriverException.
    split; [discriminate |]. split; reflexivity. }
  split; [exact H1 |]. split; [reflexivity |]. split; [exact H2 |].
  split; [exact H3 |].
  exact (navigator_gives_up Site.intercepted init
           [ "//a[contains(text(), 'Skincare')]" ]
           [ "//a[contains(@href, 'skincare')]";
             "//nav//a[contains(text(), 'Skin')]" ]
           "//a[contains(text(), 'SKINCARE')]" _ _ H1 eq_refl H2 H3).
Defined.

(** A click that times out counts like a wait that times out: the
    Navigator goes on to the next candidate.  When every candidate is
    passed over in one of the two ways, it has tried them all, in order,
    and returns [False]. *)
Theorem navigator_passes_over (w : World) (s : QudobeautyScraper)
    (cmdss : list (list command)) :
  home_loads w ->
  Forall2 (passed_over w Home) skincare_selectors cmdss ->
  navigate_to_skincare w s
  = (Ok false,
     after s ([CGet (Some base_url); CWaitReady 15] ++ List.concat cmdss) Home).
Proof.
  intros Hh Hall.
  rewrite (navigate_to_skincare_home w s Hh). unfold try_except.
  rewrite <- (app_nil_r skincare_selectors) at 1.
  rewrite (try_skincare_selectors_all_passed_over w _ cmdss) by exact Hall.
  simpl. rewrite !after_after. reflexivity.
Qed.

Lemma navigator_passes_over_witness :
  home_loads Site.slow_click
  /\ Forall2 (passed_over Site.slow_click Home) skincare_selectors
       [ [ CWaitClickable "//a[contains(text(), 'Skincare')]" 5;
           CClick "//a[contains(text(), 'Skincare')]" ];
         [ CWaitClickable "//a[contains(text(), 'SKINCARE')]" 5 ];
         [ CWaitClickable "//a[contains(@href, 'skincare')]" 5 ];
         [ CWaitClickable "//nav//a[contains(text(), 'Skin')]" 5 ] ]
  /\ navigate_to_skincare Site.slow_click init
     = (Ok false,
        after init
          [ CGet (Some base_url); CWaitReady 15;
            CWaitClickable "//a[contains(text(), 'Skincare')]" 5;
            CClick "//a[contains(text(), 'Skincare')]";
            CWaitClickable "//a[contains(text(), 'SKINCARE')]" 5;
            CWaitClickable "//a[contains(@href, 'skincare')]" 5;
            CWaitClickable "//nav//a[contains(text(), 'Skin')]" 5 ]
          Home).
Proof.
  assert (H1 : home_loads Site.slow_click)
    by (split; [reflexivity | left; reflexivity]).
  assert (H2 : Forall2 (passed_over Site.slow_click Home) skincare_selectors
       [ [ CWaitClickable "//a[contains(text(), 'Skincare')]" 5;
           CClick "//a[contains(text(), 'Skincare')]" ];
         [ CWaitClickable "//a[contains(text(), 'SKINCARE')]" 5 ];
         [ CWaitClickable "//a[contains(@href, 'skincare')]" 5 ];
         [ CWaitClickable "//nav//a[contains(text(), 'Skin')]" 5 ] ]).
  { apply List.Forall2_cons; [right; split; reflexivity |].
    repeat (apply List.Forall2_cons; [left; split; reflexivity |]).
    apply List.Forall2_nil. }
  split; [exact H1 |]. split; [exact H2 |].
  exact (navigator_passes_over Site.slow_click init _ H1 H2).
Defined.

(** A failure to load the home page is not caught by
    [navigate_to_skincare]: the exception of [driver.get], and the one of
    the page wait when it is not a timeout, come out of it.  Once the home
    page has loaded, [navigate_to_skincare] returns a boolean whatever the
    candidates do. *)
Theorem navigator_home_page (w : World) (s : QudobeautyScraper) :
  (forall e, page_get w (Some base_url) = Raise e ->
     navigate_to_skincare w s
     = (Raise e, after s [CGet (Some base_url)] (current (driver s))))
  /\ (forall e, page_get w (Some base_url) = Ok tt ->
        ready_state w Home = Raise e -> e <> TimeoutException ->
        navigate_to_skincare w s
        = (Raise e, after s [CGet (Some base_url); CWaitReady 15] Home))
  /\ (home_loads w -> exists b s', navigate_to_skincare w s = (Ok b, s')).
Proof.
  split; [| split].
  - intros e H. unfold navigate_to_skincare.
    unfold bind at 1. rewrite driver_get_run, H. reflexivity.
  - intros e Hg Hr He. unfold navigate_to_skincare.
    unfold bind at 1. rewrite driver_get_run, Hg.
    unfold bind at 1. rewrite wait_for_page_load_run. simpl.
    change (Page (Some base_url)) with Home. rewrite Hr.
    unfold after. simpl. rewrite <- app_assoc.
    destruct e; [contradiction | reflexivity | reflexivity].
  - intros Hh. rewrite (navigate_to_skincare_home w s Hh).
    unfold try_except, on_exception, ret.
    destruct (try_skincare_selectors w skincare_selectors _) as [[b|e] s'];
      eauto.
Qed.

Lemma navigator_home_page_witness :
  (page_get Site.offline (Some base_url) = Raise WebDriverException
   /\ navigate_to_skincare Site.offline init
      = (Raise WebDriverException,
         after init [CGet (Some base_url)] (current (driver init))))
  /\ (page_get Site.unready (Some base_url) = Ok tt
      /\ ready_state Site.unready Home = Raise WebDriverException
      /\ WebDriverException <> TimeoutException
      /\ navigate_to_skincare Site.unready init
         = (Raise WebDriverException,
            after init [CGet (Some base_url); CWaitReady 15] Home))
  /\ (home_loads Fixture.bare
      /\ exists b s', navigate_to_skincare Fixture.bare init = (Ok b, s')).
Proof.
  assert (Hne : WebDriverException <> TimeoutException) by discriminate.
  assert (Hh : home_loads Fixture.bare)
    by (split; [reflexivity | left; reflexivity]).
  split; [| split].
  - split; [reflexivity |].
    exact (proj1 (navigator_home_page Site.offline init) _ eq_refl).
  - split; [reflexivity |]. split; [reflexivity |]. split; [exact Hne |].
    exact (proj1 (proj2 (navigator_home_page Site.unready init))
             _ eq_refl eq_refl Hne).
  - split; [exact Hh |].
    exact (proj2 (proj2 (navigator_home_page Fixture.bare init)) Hh).
Defined.

(** ** The Link Collector *)

(** [extract_product_links] only sends the two scroll scripts, with at most
    [max_scrolls] scrolls among them, and leaves the browser where it is
    and the products as they are, whether it returns or raises.  When the
    height after the first scroll is the height before it, it scrolls
    once. *)
Theorem scrolling_is_bounded (w : World) (max_products : Z)
    (s : QudobeautyScraper) :
  (exists cmds,
     (extract_product_links w max_products s).2
     = after s cmds (current (driver s))
     /\ Forall (fun c => c = scroll_script \/ c = height_script) cmds
     /\ (scrolls cmds <= 5)%nat
     /\ (List.length cmds <= 11)%nat)
  /\ (forall h,
        scroll_height w (current (driver s)) 0 = Ok h ->
        scroll_to_bottom w (current (driver s)) 0 = Ok tt ->
        scroll_height w (current (driver s)) 1 = Ok h ->
        (extract_product_links w max_products s).2
        = after s [height_script; scroll_script; height_script]
            (current (driver s))).
Proof.
  split; [exact (extract_product_links_commands w max_products s) |].
  intros h H0 Hs H1. unfold extract_product_links.
  unfold bind at 1. rewrite script_height_outcome, H0.
  unfold bind at 1. simpl.
  unfold bind at 1. rewrite script_scroll_outcome. simpl. rewrite Hs.
  unfold bind at 1. rewrite script_height_outcome. simpl. rewrite H1.
  rewrite Z.eqb_refl. unfold bind, ret, here. simpl.
  rewrite !after_after. reflexivity.
Qed.

Lemma scrolling_is_bounded_witness :
  scroll_height Fixture.bare (current (driver init)) 0 = Ok 2400
  /\ scroll_to_bottom Fixture.bare (current (driver init)) 0 = Ok tt
  /\ scroll_height Fixture.bare (current (driver init)) 1 = Ok 2400
  /\ (extract_product_links Fixture.bare 30 init).2
     = after init [height_script; scroll_script; height_script]
         (current (driver init)).
Proof.
  split; [reflexivity |]. split; [reflexivity |]. split; [reflexivity |].
  exact (proj2 (scrolling_is_bounded Fixture.bare 30 init)
           2400 eq_refl eq_refl eq_refl).
Defined.

(** Every link [extract_product_links] returns is the href of an element
    that one of the link selectors found on the page. *)
Theorem collected_links_were_found (w : World) (max_products : Z)
    (s : QudobeautyScraper) (l : list href) :
  (extract_product_links w max_products s).1 = Ok l ->
  forall h, h ∈ l ->
    exists selector elems,
      selector ∈ link_selectors
      /\ find_elements w (current (driver s)) selector = Ok elems
      /\ Ok h ∈ elems.
Proof.
  intros H h Hh. apply extract_product_links_result in H. subst l.
  apply slice_to_elem, elem_of_elements in Hh.
  apply scan_selectors_sound in Hh as [Hh | Hh]; [| exact Hh].
  apply elem_of_empty in Hh. contradiction.
Qed.

Lemma collected_links_were_found_witness :
  (extract_product_links Fixture.twice 30 init).1
  = Ok [Some Fixture.about; Some Fixture.serum; Some Fixture.toner]
  /\ forall h,
       h ∈ [Some Fixture.about; Some Fixture.serum; Some Fixture.toner] ->
       exists selector elems,
         selector ∈ link_selectors
         /\ find_elements Fixture.twice (current (driver init)) selector = Ok elems
         /\ Ok h ∈ elems.
Proof.
  split; [vm_compute; reflexivity |].
  apply (collected_links_were_found Fixture.twice 30 init).
  vm_compute. reflexivity.
Defined.

(** When fewer links than the maximum count are returned, nothing was left
    out: the href of every element of every selector that answered, and
    whose elements all gave their href, is in the list. *)
Theorem links_complete_below_cap (w : World) (max_products : Z)
    (s : QudobeautyScraper) (l : list href) :
  (extract_product_links w max_products s).1 = Ok l ->
  Z.of_nat (List.length l) < max_products ->
  forall selector elems h,
    selector ∈ link_selectors ->
    find_elements w (current (driver s)) selector = Ok elems ->
    Forall (fun r => exists h', r = Ok h') elems ->
    Ok h ∈ elems ->
    h ∈ l.
Proof.
  intros H Hlen selector elems h Hsel Hf Hok Hin.
  apply extract_product_links_result in H.
  set (X := scan_selectors w (current (driver s)) max_products ∅ link_selectors) in *.
  assert (Hmax : 0 < max_products) by lia.
  assert (Hcap : Z.of_nat (size X) <= max_products).
  { apply scan_selectors_cap. rewrite size_empty. exact Hmax. }
  rewrite slice_to_all in H by (rewrite size_elements; exact Hcap).
  subst l. rewrite size_elements in Hlen.
  apply elem_of_elements.
  eapply scan_selectors_complete; eauto.
Qed.

Lemma links_complete_below_cap_witness :
  (extract_product_links Fixture.twice 30 init).1
  = Ok [Some Fixture.about; Some Fixture.serum; Some Fixture.toner]
  /\ Z.of_nat
       (List.length [Some Fixture.about; Some Fixture.serum; Some Fixture.toner])
     < 30
  /\ "//article//a" ∈ link_selectors
  /\ find_elements Fixture.twice (current (driver init)) "//article//a"
     = Ok [Ok (Some Fixture.toner); Ok (Some Fixture.about); Ok (Some Fixture.serum)]
  /\ Forall (fun r => exists h', r = Ok h')
       [Ok (Some Fixture.toner); Ok (Some Fixture.about); Ok (Some Fixture.serum)]
  /\ Ok (Some Fixture.about)
     ∈ [Ok (Some Fixture.toner); Ok (Some Fixture.about); Ok (Some Fixture.serum)]
  /\ Some Fixture.about
     ∈ [Some Fixture.about; Some Fixture.serum; Some Fixture.toner].
Proof.
  assert (H1 : (extract_product_links Fixture.twice 30 init).1
               = Ok [Some Fixture.about; Some Fixture.serum; Some Fixture.toner])
    by (vm_compute; reflexivity).
  assert (H2 : Z.of_nat
                 (List.length
                    [Some Fixture.about; Some Fixture.serum; Some Fixture.toner])
               < 30) by reflexivity.
  assert (H3 : "//article//a" ∈ link_selectors)
    by (do 3 apply list_elem_of_further; apply list_elem_of_here).
  assert (H5 : Forall (fun r : result href => exists h', r = Ok h')
       [Ok (Some Fixture.toner); Ok (Some Fixture.about); Ok (Some Fixture.serum)])
    by (repeat (apply List.Forall_cons; [eexists; reflexivity |]);
        apply List.Forall_nil).
  assert (H6 : Ok (Some Fixture.about)
     ∈ [Ok (Some Fixture.toner); Ok (Some Fixture.about); Ok (Some Fixture.serum)])
    by (apply list_elem_of_further, list_elem_of_here).
  split; [exact H1 |]. split; [exact H2 |]. split; [exact H3 |].
  split; [reflexivity |]. split; [exact H5 |]. split; [exact H6 |].
  exact (links_complete_below_cap Fixture.twice 30 init _ H1 H2
           "//article//a" _ (Some Fixture.about) H3 eq_refl H5 H6).
Defined.

(** With a maximum count of at least one, the set of the scan never grows
    beyond it, and the slice at the end drops nothing: the list returned
    is the set. *)
Theorem scan_stays_within_cap (w : World) (max_products : Z)
    (s : QudobeautyScraper) (l : list href) :
  1 <= max_products ->
  (extract_product_links w max_products s).1 = Ok l ->
  Z.of_nat
    (size (scan_selectors w (current (driver s)) max_products ∅ link_selectors))
  <= max_products
  /\ l = elements
           (scan_selectors w (current (driver s)) max_products ∅ link_selectors).
Proof.
  intros Hmax H. apply extract_product_links_result in H.
  assert (Hcap : Z.of_nat
    (size (scan_selectors w (current (driver s)) max_products ∅ link_selectors))
    <= max_products).
  { apply scan_selectors_cap. rewrite size_empty. lia. }
  split; [exact Hcap |].
  rewrite slice_to_all in H by (rewrite size_elements; exact Hcap). exact H.
Qed.

Lemma scan_stays_within_cap_witness :
  1 <= 2
  /\ (extract_product_links Fixture.twice 2 init).1
     = Ok [Some Fixture.serum; Some Fixture.toner]
  /\ Z.of_nat
       (size (scan_selectors Fixture.twice (current (driver init)) 2 ∅
                link_selectors))
     <= 2
  /\ [Some Fixture.serum; Some Fixture.toner]
     = elements
         (scan_selectors Fixture.twice (current (driver init)) 2 ∅ link_selectors).
Proof.
  assert (H0 : 1 <= 2) by (intros H; discriminate H).
  split; [exact H0 |]. split; [vm_compute; reflexivity |].
  apply (scan_stays_within_cap Fixture.twice 2 init _ H0).
  vm_compute. reflexivity.
Defined.

(** With a maximum count of zero or less, [extract_product_links] returns
    no link, whatever the page holds. *)
Theorem no_links_without_cap (w : World) (max_products : Z)
    (s : QudobeautyScraper) (l : list href) :
  max_products <= 0 ->
  (extract_product_links w max_products s).1 = Ok l ->
  l = [].
Proof.
  intros Hmax H. apply extract_product_links_result in H. subst l.
  apply slice_to_short; [exact Hmax |].
  rewrite size_elements. apply scan_selectors_no_cap, Hmax.
Qed.

Lemma no_links_without_cap_witness :
  -1 <= 0
  /\ (extract_product_links Fixture.twice (-1) init).1 = Ok []
  /\ ([] : list href) = [].
Proof.
  assert (H0 : -1 <= 0) by (intros H; discriminate H).
  split; [exact H0 |]. split; [vm_compute; reflexivity |].
  apply (no_links_without_cap Fixture.twice (-1) init [] H0).
  vm_compute. reflexivity.
Defined.

(** ** What a run loads and collects *)

Lemma untouched_refl s : untouched s s.
Proof. reflexivity. Qed.

Lemma untouched_trans s1 s2 s3 : untouched s1 s2 -> untouched s2 s3 -> untouched s1 s3.
Proof. unfold untouched. congruence. Qed.

Ltac untouched_step :=
  lazymatch goal with
  | |- steps untouched (bind _ _) =>
      apply (steps_bind untouched untouched_trans); [| intros ?]
  | |- steps untouched (try_except _ (on_no_such_element _)) =>
      apply (steps_on_no_such_element untouched untouched_trans)
  | |- steps untouched (ret _) => apply (steps_ret untouched untouched_refl)
  | |- steps untouched (lift _) => apply (steps_lift untouched untouched_refl)
  | |- steps untouched here => apply (steps_here untouched untouched_refl)
  | |- steps untouched (if ?b then _ else _) => destruct b
  | |- steps untouched (match ?o with Some _ => _ | None => _ end) => destruct o
  end.

Create HintDb untouched.

Ltac untouched_steps := repeat untouched_step; auto with untouched.

Lemma gets_app c1 c2 : gets (c1 ++ c2) = (gets c1 ++ gets c2)%list.
Proof. apply omap_app. Qed.

Lemma loads_nothing_refl s : loads_nothing s s.
Proof.
  split; [reflexivity |]. exists [].
  split; [symmetry; apply app_nil_r | reflexivity].
Qed.

Lemma loads_nothing_trans s1 s2 s3 :
  loads_nothing s1 s2 -> loads_nothing s2 s3 -> loads_nothing s1 s3.
Proof.
  intros [E1 (c1 & L1 & G1)] [E2 (c2 & L2 & G2)].
  split; [congruence |]. exists (c1 ++ c2)%list. split.
  - rewrite L2, L1. symmetry. apply app_assoc.
  - rewrite gets_app, G1, G2. reflexivity.
Qed.

Lemma loads_nothing_send c : gets [c] = [] -> steps loads_nothing (send c).
Proof.
  intros H s. split; [reflexivity |]. exists [c]. split; [reflexivity | exact H].
Qed.

Lemma loads_nothing_goto p : steps loads_nothing (goto p).
Proof.
  intros s. split; [reflexivity |]. exists [].
  split; [symmetry; apply app_nil_r | reflexivity].
Qed.

Lemma untouched_loads_nothing {A} (m : M A) :
  steps untouched m -> steps loads_nothing m.
Proof. intros H s. rewrite (H s). apply loads_nothing_refl. Qed.

Ltac loads_nothing_step :=
  lazymatch goal with
  | |- steps loads_nothing (bind _ _) =>
      apply (steps_bind loads_nothing loads_nothing_trans); [| intros ?]
  | |- steps loads_nothing (try_except _ (on_timeout _)) =>
      apply (steps_on_timeout loads_nothing loads_nothing_trans)
  | |- steps loads_nothing (try_except _ (on_no_such_element _)) =>
      apply (steps_on_no_such_element loads_nothing loads_nothing_trans)
  | |- steps loads_nothing (try_except _ (on_exception _)) =>
      apply (steps_on_exception loads_nothing loads_nothing_trans)
  | |- steps loads_nothing (ret _) =>
      apply (steps_ret loads_nothing loads_nothing_refl)
  | |- steps loads_nothing (lift _) =>
      apply (steps_lift loads_nothing loads_nothing_refl)
  | |- steps loads_nothing here =>
      apply (steps_here loads_nothing loads_nothing_refl)
  | |- steps loads_nothing (goto _) => apply loads_nothing_goto
  | |- steps loads_nothing (send _) => apply loads_nothing_send; reflexivity
  | |- steps loads_nothing (if ?b then _ else _) => destruct b
  | |- steps loads_nothing (match ?o with Some _ => _ | None => _ end) => destruct o
  end.

Create HintDb loads_nothing.

Ltac loads_nothing_steps := repeat loads_nothing_step; auto with loads_nothing.

Section RunShape.

Variable w : World.

Lemma untouched_safe_find_element b v : steps untouched (_safe_find_element w b v).
Proof. unfold _safe_find_element. untouched_steps. Qed.

Lemma untouched_safe_get_attribute b v a :
  steps untouched (_safe_get_attribute w b v a).
Proof. unfold _safe_get_attribute. untouched_steps. Qed.

Hint Resolve untouched_safe_find_element untouched_safe_get_attribute : untouched.

Lemma untouched_probe_text selectors : forall field,
  steps untouched (probe_text w field selectors).
Proof.
  induction selectors as [| [b x] rest IH]; intros field; simpl; untouched_steps.
Qed.

Lemma untouched_probe_image selectors : forall field,
  steps untouched (probe_image w field selectors).
Proof.
  induction selectors as [| [b x] rest IH]; intros field; simpl; untouched_steps.
Qed.

Hint Resolve untouched_probe_text untouched_probe_image : untouched.

Lemma loads_nothing_wait_for_page_load t :
  steps loads_nothing (_wait_for_page_load w t).
Proof. unfold _wait_for_page_load, wait_ready. loads_nothing_steps. Qed.

Hint Resolve loads_nothing_wait_for_page_load : loads_nothing.

Lemma loads_nothing_try_skincare_selectors selectors :
  steps loads_nothing (try_skincare_selectors w selectors).
Proof.
  induction selectors as [| x rest IH]; simpl;
    unfold wait_clickable, click; loads_nothing_steps.
Qed.

Lemma loads_nothing_extract_product_links max :
  steps loads_nothing (extract_product_links w max).
Proof.
  intros s.
  destruct (extract_product_links_commands w max s) as (cmds & E & HF & _).
  rewrite E. split; [reflexivity |]. exists cmds. split; [reflexivity |].
  clear E. induction HF as [| c cmds [-> | ->] _ IH]; [reflexivity | exact IH ..].
Qed.

(** The page loads of [scrape_product_page]: the URL it was given, once. *)
Lemma scrape_product_page_loads url s :
  products (scrape_product_page w url s).2 = products s
  /\ exists cmds,
       log (driver (scrape_product_page w url s).2)
       = (log (driver s) ++ cmds)%list
       /\ gets cmds = [url].
Proof.
  assert (Ht : (scrape_product_page w url s).2 = (scrape_product_page_try w url s).2).
  { unfold scrape_product_page, try_except.
    destruct (scrape_product_page_try w url s) as [[o|e] t]; reflexivity. }
  rewrite Ht.
  enough (H : forall t, t = (scrape_product_page_try w url s).2 ->
            products t = products s
            /\ exists cmds, log (driver t) = (log (driver s) ++ cmds)%list
                            /\ gets cmds = [url])
    by (apply H; reflexivity).
  intros t Et. unfold scrape_product_page_try in Et.
  unfold bind at 1 in Et. rewrite driver_get_run in Et.
  destruct (page_get w url) as [[]|e].
  - match type of Et with
    | context [bind (_wait_for_page_load w 15) ?f ?t0] =>
        set (m := bind (_wait_for_page_load w 15) f) in Et; set (s1 := t0) in Et
    end.
    assert (H : loads_nothing s1 (m s1).2).
    { apply (steps_bind loads_nothing loads_nothing_trans);
        [apply loads_nothing_wait_for_page_load |].
      intros _. apply untouched_loads_nothing. untouched_steps. }
    change (t = (m s1).2) in Et. rewrite <- Et in H.
    destruct H as [Hp (cmds & Hl & Hg)].
    split; [exact Hp |]. exists (CGet url :: cmds).
    split; [rewrite Hl; unfold s1; cbn [driver log]; rewrite <- app_assoc;
            reflexivity |].
    change (gets (CGet url :: cmds)) with (url :: gets cmds).
    rewrite Hg. reflexivity.
  - subst t. simpl. split; [reflexivity |]. exists [CGet url]. split; reflexivity.
Qed.

End RunShape.

Section RunShape2.

Variable w : World.

(** The loop over the links loads each link once, in order, and appends
    records that are named and whose URLs are among the links, in order. *)
Lemma scrape_links_shape links : forall s,
  exists new cmds,
    products (scrape_links w links s).2 = (products s ++ new)%list
    /\ log (driver (scrape_links w links s).2) = (log (driver s) ++ cmds)%list
    /\ gets cmds = links
    /\ map product_data.product_url new `sublist_of` links
    /\ Forall named new.
Proof.
  induction links as [| link rest IH]; intros s.
  - exists [], []. simpl. rewrite !app_nil_r.
    repeat split; [apply sublist_nil | apply List.Forall_nil].
  - rewrite scrape_links_cons.
    destruct (scrape_product_page_loads w link s) as [Hp (c1 & Hl & Hg)].
    destruct (scrape_product_page_returns w link s) as [o Ho].
    pose proof (scrape_product_page_some w link s) as Hsome.
    destruct (scrape_product_page w link s) as [r t]. simpl in Hp, Hl, Ho, Hsome.
    subst r. destruct o as [pd|].
    + destruct (PyStr.truthy (product_data.product_name pd)) eqn:Hname.
      * destruct (Hsome pd eq_refl) as [s' Htry].
        apply scrape_product_page_try_fields in Htry.
        destruct Htry as (_ & _ & _ & _ & _ & Hurl & _).
        match goal with
        | |- context [scrape_links w rest ?t'] =>
            destruct (IH t') as (new & cmds & E1 & E2 & E3 & E4 & E5)
        end.
        simpl in E1, E2.
        exists (pd :: new), (c1 ++ cmds)%list.
        split; [rewrite E1, Hp, <- app_assoc; reflexivity |].
        split; [rewrite E2, Hl, <- app_assoc; reflexivity |].
        split; [rewrite gets_app, Hg, E3; reflexivity |].
        split; [simpl; rewrite Hurl; apply sublist_skip, E4 |].
        apply List.Forall_cons; [apply truthy_named, Hname | exact E5].
      * destruct (IH t) as (new & cmds & E1 & E2 & E3 & E4 & E5).
        exists new, (c1 ++ cmds)%list.
        split; [rewrite E1, Hp; reflexivity |].
        split; [rewrite E2, Hl, <- app_assoc; reflexivity |].
        split; [rewrite gets_app, Hg, E3; reflexivity |].
        split; [apply sublist_cons, E4 | exact E5].
    + destruct (IH t) as (new & cmds & E1 & E2 & E3 & E4 & E5).
      exists new, (c1 ++ cmds)%list.
      split; [rewrite E1, Hp; reflexivity |].
      split; [rewrite E2, Hl, <- app_assoc; reflexivity |].
      split; [rewrite gets_app, Hg, E3; reflexivity |].
      split; [apply sublist_cons, E4 | exact E5].
Qed.

(** [navigate_to_skincare] loads the home page, and nothing else. *)
Lemma navigate_to_skincare_loads s :
  products (navigate_to_skincare w s).2 = products s
  /\ exists cmds,
       log (driver (navigate_to_skincare w s).2) = (log (driver s) ++ cmds)%list
       /\ gets cmds = [Some base_url].
Proof.
  enough (H : forall t, t = (navigate_to_skincare w s).2 ->
            products t = products s
            /\ exists cmds, log (driver t) = (log (driver s) ++ cmds)%list
                            /\ gets cmds = [Some base_url])
    by (apply H; reflexivity).
  intros t Et. unfold navigate_to_skincare in Et.
  unfold bind at 1 in Et. rewrite driver_get_run in Et.
  destruct (page_get w (Some base_url)) as [[]|e].
  - match type of Et with
    | context [bind (_wait_for_page_load w 15) ?f ?t0] =>
        set (m := bind (_wait_for_page_load w 15) f) in Et; set (s1 := t0) in Et
    end.
    assert (H : loads_nothing s1 (m s1).2).
    { apply (steps_bind loads_nothing loads_nothing_trans);
        [apply loads_nothing_wait_for_page_load |].
      intros _.
      apply (steps_on_exception loads_nothing loads_nothing_trans);
        [apply loads_nothing_try_skincare_selectors |].
      apply (steps_ret loads_nothing loads_nothing_refl). }
    change (t = (m s1).2) in Et. rewrite <- Et in H.
    destruct H as [Hp (cmds & Hl & Hg)].
    split; [exact Hp |]. exists (CGet (Some base_url) :: cmds).
    split; [rewrite Hl; unfold s1; cbn [driver log]; rewrite <- app_assoc;
            reflexivity |].
    change (gets (CGet (Some base_url) :: cmds)) with (Some base_url :: gets cmds).
    rewrite Hg. reflexivity.
  - subst t. simpl. split; [reflexivity |].
    exists [CGet (Some base_url)]. split; reflexivity.
Qed.

Lemma extract_product_links_bounded max s l :
  (extract_product_links w max s).1 = Ok l ->
  NoDup l /\ Z.of_nat (List.length l) <= Z.max 0 max.
Proof.
  intros H. apply extract_product_links_result in H.
  destruct (Z.le_gt_cases max 0) as [Hmax | Hmax].
  - rewrite slice_to_short in H;
      [| exact Hmax | rewrite size_elements; apply scan_selectors_no_cap, Hmax].
    subst l. split; [apply NoDup_nil_2 | simpl; lia].
  - subst l. split; [apply slice_to_NoDup, NoDup_elements |].
    pose proof (slice_to_length
      (elements (scan_selectors w (current (driver s)) max ∅ link_selectors))
      max) as Hl.
    lia.
Qed.

(** The links the run goes through are distinct and within the cap, the
    fallback counting for one. *)
Lemma run_links_bounded max s l :
  (extract_product_links w max s).1 = Ok l ->
  NoDup (match l with [] => [fallback_url] | _ => l end)
  /\ Z.of_nat (List.length (match l with [] => [fallback_url] | _ => l end))
     <= Z.max 1 max.
Proof.
  intros H. apply extract_product_links_bounded in H as [Hnd Hlen].
  destruct l as [| h l'].
  - split; [apply NoDup_singleton | simpl; lia].
  - split; [exact Hnd | lia].
Qed.

(** The shape of a run of the guarded block of [scrape_products]. *)
Lemma scrape_products_guarded_shape max s :
  exists links new cmds,
    run_added max s (scrape_products_guarded w max s).2 links new cmds.
Proof.
  enough (H : forall t, t = (scrape_products_guarded w max s).2 ->
            exists links new cmds, run_added max s t links new cmds)
    by (apply H; reflexivity).
  intros t Et0. unfold scrape_products_guarded in Et0.
  match type of Et0 with
  | context [try_except ?m _] => set (body := m) in Et0
  end.
  assert (Et : t = (body s).2).
  { rewrite Et0. unfold try_except, on_exception, ret.
    destruct (body s) as [[u|e] s1]; reflexivity. }
  clear Et0. unfold body in Et. clear body.
  unfold bind at 1 in Et.
  destruct (navigate_to_skincare_loads s) as [Hp1 (c1 & Hl1 & Hg1)].
  destruct (navigate_to_skincare w s) as [[b|e] s1]; simpl in Hp1, Hl1.
  - unfold bind at 1 in Et.
    destruct (loads_nothing_extract_product_links w max s1)
      as [Hp2 (c2 & Hl2 & Hg2)].
    pose proof (run_links_bounded max s1) as Hlinks.
    destruct (extract_product_links w max s1) as [[l|e] s2];
      simpl in Hp2, Hl2, Hlinks.
    + specialize (Hlinks l eq_refl). destruct Hlinks as [Hnd Hlen].
      set (links := match l with [] => [fallback_url] | _ => l end) in *.
      assert (Et' : t = (scrape_links w links s2).2).
      { rewrite Et. unfold bind, ret. subst links. unfold fallback_url.
        destruct (scrape_links w _ s2) as [[u|e] s3]; reflexivity. }
      destruct (scrape_links_shape links s2) as (new & c3 & E1 & E2 & E3 & E4 & E5).
      rewrite <- Et' in E1, E2.
      exists links, new, (c1 ++ c2 ++ c3)%list.
      split; [rewrite E1, Hp2, Hp1; reflexivity |].
      split; [rewrite E2, Hl2, Hl1, <- !app_assoc; reflexivity |].
      split; [rewrite !gets_app, Hg1, Hg2, E3; reflexivity |].
      repeat split; assumption.
    + subst t. simpl. exists [], [], (c1 ++ c2)%list.
      split; [rewrite Hp2, Hp1, app_nil_r; reflexivity |].
      split; [rewrite Hl2, Hl1, <- app_assoc; reflexivity |].
      split; [rewrite gets_app, Hg1, Hg2; reflexivity |].
      split; [apply sublist_nil |]. split; [apply List.Forall_nil |].
      split; [apply NoDup_nil_2 | simpl; lia].
  - subst t. simpl. exists [], [], c1.
    split; [rewrite Hp1, app_nil_r; reflexivity |].
    split; [exact Hl1 |]. split; [exact Hg1 |].
    split; [apply sublist_nil |]. split; [apply List.Forall_nil |].
    split; [apply NoDup_nil_2 | simpl; lia].
Qed.

(** The shape of a run of [scrape_products]: [cmds] are the commands
    before the driver is released. *)
Lemma scrape_products_shape max s :
  exists links new cmds,
    run_added max s (scrape_products w max s).2 links new (cmds ++ [CQuit])
    /\ CQuit ∉ cmds.
Proof.
  destruct (scrape_products_guarded_shape max s) as (links & new & cmds & H).
  assert (Hq : no_quit s (scrape_products_guarded w max s).2).
  { apply steps_scrape_products_guarded.
    - apply no_quit_refl.
    - apply no_quit_trans.
    - apply calm_no_quit.
    - apply no_quit_scrape_links. }
  unfold scrape_products, try_finally.
  destruct (scrape_products_guarded w max s) as [r s1].
  destruct H as (E1 & E2 & E3 & E4 & E5 & E6 & E7). simpl in E1, E2, Hq.
  destruct Hq as (cmds' & E2' & Hq). rewrite E2 in E2'.
  apply app_inv_head in E2'. subst cmds'.
  exists links, new, cmds. simpl. split; [| exact Hq].
  split; [exact E1 |].
  split; [rewrite E2, <- app_assoc; reflexivity |].
  split; [rewrite gets_app, E3; simpl; rewrite app_nil_r; reflexivity |].
  repeat split; assumption.
Qed.

End RunShape2.

(** A run appends records with pairwise distinct product URLs. *)
Theorem records_have_distinct_urls (w : World) (max_products : Z)
    (s : QudobeautyScraper) :
  exists new,
    products (scrape_products w max_products s).2 = (products s ++ new)%list
    /\ NoDup (map product_data.product_url new).
Proof.
  destruct (scrape_products_shape w max_products s)
    as (links & new & cmds & (E1 & _ & _ & Hsub & _ & Hnd & _) & _).
  exists new. split; [exact E1 |]. eapply sublist_NoDup; eauto.
Qed.

(** A run appends at most [max_products] records, and at most one when
    [max_products] is below one: the fallback page counts for one. *)
Theorem records_within_cap (w : World) (max_products : Z)
    (s : QudobeautyScraper) :
  exists new,
    products (scrape_products w max_products s).2 = (products s ++ new)%list
    /\ Z.of_nat (List.length new) <= Z.max 1 max_products.
Proof.
  destruct (scrape_products_shape w max_products s)
    as (links & new & cmds & (E1 & _ & _ & Hsub & _ & _ & Hlen) & _).
  exists new. split; [exact E1 |].
  apply sublist_length in Hsub. rewrite length_map in Hsub. lia.
Qed.

(** A run loads the home page first and then detail pages only: pairwise
    distinct URLs, at most [max_products] of them (one when [max_products]
    is below one), each loaded once; the product URL of every record it
    appends is one of them. *)
Theorem run_loads_each_page_once (w : World) (max_products : Z)
    (s : QudobeautyScraper) :
  exists links new,
    gets (log (driver (scrape_products w max_products s).2))
    = (gets (log (driver s)) ++ Some base_url :: links)%list
    /\ NoDup links
    /\ Z.of_nat (List.length links) <= Z.max 1 max_products
    /\ products (scrape_products w max_products s).2 = (products s ++ new)%list
    /\ Forall (fun r => product_data.product_url r ∈ links) new.
Proof.
  destruct (scrape_products_shape w max_products s)
    as (links & new & cmds & (E1 & E2 & E3 & Hsub & _ & Hnd & Hlen) & _).
  exists links, new.
  split; [rewrite E2, gets_app, E3; reflexivity |].
  split; [exact Hnd |]. split; [exact Hlen |]. split; [exact E1 |].
  apply List.Forall_forall. intros r Hr. apply list_elem_of_In in Hr.
  eapply elem_of_sublist; [| exact Hsub].
  apply list_elem_of_fmap. exists r. split; [reflexivity | exact Hr].
Qed.

Section RunLinks.

Variable w : World.

Lemma scrape_products_guarded_links max s b s1 l s2 :
  navigate_to_skincare w s = (Ok b, s1) ->
  extract_product_links w max s1 = (Ok l, s2) ->
  (scrape_products_guarded w max s).2
  = (scrape_links w (match l with [] => [fallback_url] | _ => l end) s2).2.
Proof.
  intros H1 H2. unfold scrape_products_guarded, try_except.
  unfold bind at 1. rewrite H1. unfold bind at 1. rewrite H2.
  unfold bind, ret, on_exception, fallback_url.
  destruct (scrape_links w _ s2) as [[u|e] s3]; reflexivity.
Qed.

(** What a run loads and collects once navigation and link extraction
    have returned. *)
Lemma scrape_products_links max s b l :
  (navigate_to_skincare w s).1 = Ok b ->
  (extract_product_links w max (navigate_to_skincare w s).2).1 = Ok l ->
  let links := match l with [] => [fallback_url] | _ => l end in
  gets (log (driver (scrape_products w max s).2))
  = (gets (log (driver s)) ++ Some base_url :: links)%list
  /\ products (scrape_products w max s).2 = products (scrape_links w links s).2.
Proof.
  intros H1 H2 links.
  destruct (navigate_to_skincare_loads w s) as [Hp1 (c1 & Hl1 & Hg1)].
  destruct (navigate_to_skincare w s) as [r1 s1] eqn:E1.
  simpl in H1, H2, Hp1, Hl1. subst r1.
  destruct (loads_nothing_extract_product_links w max s1)
    as [Hp2 (c2 & Hl2 & Hg2)].
  destruct (extract_product_links w max s1) as [r2 s2] eqn:E2.
  simpl in H2, Hp2, Hl2. subst r2.
  pose proof (scrape_products_guarded_links max s b s1 l s2 E1 E2) as Hg.
  fold links in Hg.
  destruct (scrape_links_shape w links s2) as (new & c3 & _ & E3 & G3 & _).
  unfold scrape_products, try_finally.
  destruct (scrape_products_guarded w max s) as [r t]. simpl in Hg. subst t.
  simpl. split.
  - rewrite E3, Hl2, Hl1, !gets_app, Hg1, Hg2, G3. simpl.
    rewrite !app_nil_r, <- app_assoc. reflexivity.
  - apply scrape_links_products. congruence.
Qed.

End RunLinks.

(** Once navigation and link extraction have returned, the run loads the
    home page and then the links returned, each once, in their order, or
    the fallback page alone when no link was returned; the records it
    appends are those of the loop over these links. *)
Theorem run_follows_collected_links (w : World) (max_products : Z)
    (s : QudobeautyScraper) (b : bool) (l : list href) :
  (navigate_to_skincare w s).1 = Ok b ->
  (extract_product_links w max_products (navigate_to_skincare w s).2).1 = Ok l ->
  gets (log (driver (scrape_products w max_products s).2))
  = (gets (log (driver s))
     ++ Some base_url :: match l with [] => [fallback_url] | _ => l end)%list
  /\ products (scrape_products w max_products s).2
     = products
         (scrape_links w (match l with [] => [fallback_url] | _ => l end) s).2.
Proof.
  intros H1 H2.
  destruct (scrape_products_links w max_products s b l H1 H2) as [Hgets Hproducts].
  split; [exact Hgets | exact Hproducts].
Qed.

Lemma run_follows_collected_links_witness :
  (navigate_to_skincare Fixture.three_pages init).1 = Ok false
  /\ (extract_product_links Fixture.three_pages 30
        (navigate_to_skincare Fixture.three_pages init).2).1
     = Ok [Some Fixture.serum; Some Fixture.mask; Some Fixture.toner]
  /\ gets (log (driver (scrape_products Fixture.three_pages 30 init).2))
     = (gets (log (driver init))
        ++ Some base_url
        :: [Some Fixture.serum; Some Fixture.mask; Some Fixture.toner])%list
  /\ products (scrape_products Fixture.three_pages 30 init).2
     = products
         (scrape_links Fixture.three_pages
            [Some Fixture.serum; Some Fixture.mask; Some Fixture.toner] init).2.
Proof.
  split; [vm_compute; reflexivity |]. split; [vm_compute; reflexivity |].
  apply (run_follows_collected_links Fixture.three_pages 30 init false
           [Some Fixture.serum; Some Fixture.mask; Some Fixture.toner]);
    vm_compute; reflexivity.
Defined.

(** With a maximum count of zero or less the run still scrapes one detail
    page: no link is collected, and the fallback page is loaded after the
    home page. *)
Theorem run_without_cap_scrapes_fallback (w : World) (max_products : Z)
    (s : QudobeautyScraper) (b : bool) (l : list href) :
  max_products <= 0 ->
  (navigate_to_skincare w s).1 = Ok b ->
  (extract_product_links w max_products (navigate_to_skincare w s).2).1 = Ok l ->
  l = []
  /\ gets (log (driver (scrape_products w max_products s).2))
     = (gets (log (driver s)) ++ [Some base_url; fallback_url])%list
  /\ products (scrape_products w max_products s).2
     = products (scrape_links w [fallback_url] s).2.
Proof.
  intros Hmax H1 H2.
  assert (Hl : l = []).
  { apply extract_product_links_bounded in H2 as [_ Hlen].
    destruct l; [reflexivity | simpl in Hlen; lia]. }
  subst l. split; [reflexivity |].
  exact (scrape_products_links w max_products s b [] H1 H2).
Qed.

Lemma run_without_cap_scrapes_fallback_witness :
  0 <= 0
  /\ (navigate_to_skincare Fixture.three_pages init).1 = Ok false
  /\ (extract_product_links Fixture.three_pages 0
        (navigate_to_skincare Fixture.three_pages init).2).1 = Ok []
  /\ ([] : list href) = []
  /\ gets (log (driver (scrape_products Fixture.three_pages 0 init).2))
     = (gets (log (driver init)) ++ [Some base_url; fallback_url])%list
  /\ products (scrape_products Fixture.three_pages 0 init).2
     = products (scrape_links Fixture.three_pages [fallback_url] init).2.
Proof.
  assert (H0 : 0 <= 0) by (intros H; discriminate H).
  split; [exact H0 |]. split; [vm_compute; reflexivity |].
  split; [vm_compute; reflexivity |].
  apply (run_without_cap_scrapes_fallback Fixture.three_pages 0 init false [] H0);
    vm_compute; reflexivity.
Defined.

(** When the home page does not load, the run collects nothing: it sends
    the load and the release of the driver, and returns with the products
    as they were. *)
Theorem run_offline_collects_nothing (w : World) (max_products : Z)
    (s : QudobeautyScraper) (e : exn) :
  page_get w (Some base_url) = Raise e ->
  scrape_products w max_products s
  = (Ok tt, after s [CGet (Some base_url); CQuit] (current (driver s))).
Proof.
  intros H. unfold scrape_products, try_finally, scrape_products_guarded.
  unfold try_except at 1. unfold bind at 1.
  unfold navigate_to_skincare. unfold bind at 1. rewrite driver_get_run, H.
  unfold on_exception, ret, driver_quit, send, after. simpl.
  rewrite <- app_assoc. reflexivity.
Qed.

Lemma run_offline_collects_nothing_witness :
  page_get Site.offline (Some base_url) = Raise WebDriverException
  /\ scrape_products Site.offline 30 init
     = (Ok tt, after init [CGet (Some base_url); CQuit] (current (driver init))).
Proof.
  split; [reflexivity |].
  exact (run_offline_collects_nothing Site.offline 30 init WebDriverException
           eq_refl).
Defined.
